(** * docx_feature_copier: the layout/style transfer engine of [main.py]

    A shallow embedding of the OpenXML page-border patcher
    ([_deepcopy], [_extract_pgBorders_from_source],
    [_insert_pgBorders_schema_order], [_set_pgBorders_in_all_sections],
    [patch_art_page_borders]) and of the Word-automation pipeline
    ([try_organizer_copy_all_styles], [copy_styles_via_template],
    [transfer_layout]), followed by the properties of the design document
    stated and proved over it.

    Part I holds the model, Part II the theory. *)

From Stdlib Require Import ZArith Lia String List Bool.
From stdpp Require Import base option list list_numbers strings pretty gmap.

Set Warnings "-register-all".

(** * Part I: the model *)

(** ** ElementTree elements

    An [xml.etree.ElementTree.Element]: a tag (namespace-qualified,
    [{uri}local]), an attribute dictionary, the optional [text] and [tail]
    strings, and the ordered list of child elements. *)

Inductive Element : Type :=
  mkElement {
    tag : string;
    attrib : gmap string string;
    text : option string;
    tail : option string;
    children : list Element
  }.

Definition set_children (e : Element) (cs : list Element) : Element :=
  mkElement (tag e) (attrib e) (text e) (tail e) cs.

(** [W_NS] and the f-string [f"{W_NS}name"]. *)
Definition W_NS : string :=
  "{http://schemas.openxmlformats.org/wordprocessingml/2006/main}".

Definition w (name : string) : string := W_NS +:+ name.

(** The direct children of [elem] carrying the tag [path], in order. *)
Definition children_with (path : string) (elem : Element) : list Element :=
  List.filter (fun e => bool_decide (tag e = path)) (children elem).

(** [Element.find(tag)] with a plain tag path: the first direct child with
    that tag, [None] when there is none. *)
Definition find (path : string) (elem : Element) : option Element :=
  List.find (fun e => bool_decide (tag e = path)) (children elem).

(** [Element.remove(existing)] where [existing] is the result of
    [find(path)]: removal is by identity, and the object found is the first
    child carrying the tag, so exactly that position is dropped. *)
Fixpoint remove_first (path : string) (cs : list Element) : list Element :=
  match cs with
  | [] => []
  | c :: rest =>
      if bool_decide (tag c = path) then rest else c :: remove_first path rest
  end.

(** [Element.iter(tag)]: the element itself and all its descendants in
    document order, restricted to those carrying [tag]. *)
Fixpoint iter (path : string) (elem : Element) : list Element :=
  match elem with
  | mkElement t _ _ _ cs =>
      (if bool_decide (t = path) then [elem] else []) ++ flat_map (iter path) cs
  end.

(** The ElementPath step [.//tag] from the context element [root]:
    [root.iter(tag)] without [root] itself. *)
Definition descendant_step (path : string) (root : Element) : list Element :=
  flat_map (iter path) (children root).

(** The ElementPath step [/tag] over a result list: for every element of the
    list in turn, its children carrying [tag]. *)
Definition child_step (path : string) (result : list Element) : list Element :=
  flat_map (children_with path) result.

(** [root.findall(f".//{W_NS}body/{W_NS}sectPr")]. *)
Definition findall_body_sectPr (root : Element) : list Element :=
  child_step (w "sectPr") (descendant_step (w "body") root).

(** [root.findall(f".//{W_NS}p/{W_NS}pPr/{W_NS}sectPr")]. *)
Definition findall_p_sectPr (root : Element) : list Element :=
  child_step (w "sectPr") (child_step (w "pPr") (descendant_step (w "p") root)).

(** [list.insert(i, x)] of Python, for any integer [i]: a negative index
    counts from the end and is clamped to the front, an index beyond the
    end appends. *)
Definition list_insert_py {A} (i : Z) (x : A) (l : list A) : list A :=
  let n := Z.of_nat (length l) in
  let i := if (i <? 0)%Z then Z.max 0 (i + n) else Z.min i n in
  take (Z.to_nat i) l ++ x :: drop (Z.to_nat i) l.

(** ** The OpenXML helpers for artistic page borders *)

(** [_deepcopy(elem)]: a new element with the same tag and attributes, a
    copy of every child appended in order, then [text] and [tail]. *)
Fixpoint _deepcopy (elem : Element) : Element :=
  match elem with
  | mkElement t a tx tl cs => mkElement t a tx tl (map _deepcopy cs)
  end.

Definition pgBorders : string := w "pgBorders".

Definition after_tags : gset string :=
  {[ w "type"; w "pgSz"; w "pgMar"; w "paperSrc" ]}.

Definition before_tags : gset string :=
  {[ w "lnNumType"; w "pgNumType"; w "cols"; w "docGrid" ]}.

(** [for i, ch in enumerate(children):
       if ch.tag in after_tags and i > after_idx: after_idx = i]
    started at position [i] with the current [after_idx]. *)
Fixpoint scan_after (i : Z) (cs : list Element) (after_idx : Z) : Z :=
  match cs with
  | [] => after_idx
  | ch :: rest =>
      scan_after (i + 1) rest
        (if bool_decide (tag ch ∈ after_tags) && (after_idx <? i)%Z
         then i else after_idx)
  end.

(** [for i, ch in enumerate(children):
       if ch.tag in before_tags: before_idx = i; break]
    started at position [i] with the current [before_idx]. *)
Fixpoint scan_before (i : Z) (cs : list Element) (before_idx : Z) : Z :=
  match cs with
  | [] => before_idx
  | ch :: rest =>
      if bool_decide (tag ch ∈ before_tags) then i
      else scan_before (i + 1) rest before_idx
  end.

(** The index computed from [children = list(sectpr)]:
    [min(after_idx + 1, before_idx)] with [after_idx] started at [-1] and
    [before_idx] at [len(children)]. *)
Definition insert_idx (cs : list Element) : Z :=
  let after_idx := scan_after 0 cs (-1) in
  let before_idx := scan_before 0 cs (Z.of_nat (length cs)) in
  Z.min (after_idx + 1) before_idx.

(** The first three lines of [_insert_pgBorders_schema_order]: drop the
    fragment the section already has, if [find] returns one. *)
Definition remove_existing (sectpr : Element) : Element :=
  match find pgBorders sectpr with
  | Some _ => set_children sectpr (remove_first pgBorders (children sectpr))
  | None => sectpr
  end.

(** The insertion index the patcher computes for a section-properties
    element, after the existing fragment has been removed. *)
Definition insertion_index (sectpr : Element) : Z :=
  insert_idx (children (remove_existing sectpr)).

(** [_insert_pgBorders_schema_order(sectpr, pgBorders_elem)]; the element
    is mutated in place in the source, the new value is returned here. *)
Definition _insert_pgBorders_schema_order
    (sectpr pgBorders_elem : Element) : Element :=
  let sectpr := remove_existing sectpr in
  let cs := children sectpr in
  set_children sectpr
    (list_insert_py (insert_idx cs) (_deepcopy pgBorders_elem) cs).

(** Number of direct children carrying a tag. *)
Definition count_tag (path : string) (e : Element) : nat :=
  length (children_with path e).

(** The body of [_extract_pgBorders_from_source] once the part is parsed:
    [if sectprs: pg = sectprs[-1].find(pgBorders); if pg is not None: return pg]
    for the body-level list, then for the paragraph-level list, then
    [None]. *)
Definition pg_of_last (sectprs : list Element) : option Element :=
  match last sectprs with
  | Some sectpr => find pgBorders sectpr
  | None => None
  end.

Definition extract_pgBorders (root : Element) : option Element :=
  match pg_of_last (findall_body_sectPr root) with
  | Some pg => Some pg
  | None => pg_of_last (findall_p_sectPr root)
  end.

(** The two loops of [_set_pgBorders_in_all_sections] as one pass each over
    the tree.  The source calls [_insert_pgBorders_schema_order] on every
    element of the [findall] list, mutating it in place; an element is in
    the list exactly when it is a [sectPr] whose parent is a [body] below
    the root (first loop), or a [sectPr] whose parent is a [pPr] whose
    parent is a [p] below the root (second loop).  The insertion only looks
    at the tags of the children, which no other insertion changes, so the
    final tree does not depend on the order of the list; the inserted copy
    is a new object and is not itself in the list. *)
Fixpoint patch_body_from (pg : Element) (parent_is_body : bool)
    (e : Element) : Element :=
  match e with
  | mkElement t a tx tl cs =>
      let e' := mkElement t a tx tl
                  (map (patch_body_from pg (bool_decide (t = w "body"))) cs) in
      if parent_is_body && bool_decide (t = w "sectPr")
      then _insert_pgBorders_schema_order e' pg else e'
  end.

Definition patch_body_level (pg root : Element) : Element :=
  set_children root (map (patch_body_from pg false) (children root)).

Fixpoint patch_p_from (pg : Element) (parent_is_p parent_is_pPr : bool)
    (e : Element) : Element :=
  match e with
  | mkElement t a tx tl cs =>
      let e' := mkElement t a tx tl
                  (map (patch_p_from pg (bool_decide (t = w "p"))
                          (parent_is_p && bool_decide (t = w "pPr"))) cs) in
      if parent_is_pPr && bool_decide (t = w "sectPr")
      then _insert_pgBorders_schema_order e' pg else e'
  end.

Definition patch_p_level (pg root : Element) : Element :=
  set_children root (map (patch_p_from pg false false) (children root)).

(** ** Packages and the file system *)

Abbreviation bytes := (list Byte.byte).

(** A [zipfile.ZipInfo]: the entry's name and the metadata that
    [writestr(item, data)] carries over with it. *)
Record ZipInfo : Type := mkZipInfo {
  filename : string;
  date_time : Z;
  compress_type : Z
}.

(** An archive as [infolist()] shows it: the entries in order, each with
    its content.  Names may repeat. *)
Abbreviation Archive := (list (ZipInfo * bytes)).

(** [ZipFile.NameToInfo], the dictionary [read(name)] looks names up in: it
    is filled entry by entry, so a repeated name keeps the last entry. *)
Definition NameToInfo (z : Archive) : gmap string bytes :=
  foldl (fun m e => <[filename e.1 := e.2]> m) ∅ z.

(** The file system: the archive stored at each existing path. *)
Abbreviation FS := (gmap string Archive).

Inductive Exn : Type :=
  | FileNotFoundError (msg : string)
  | KeyError (name : string)
  | ParseError
  | ComError (what : string).

Inductive Result (A : Type) : Type :=
  | Ok (a : A)
  | Raise (e : Exn).
Arguments Ok {A} a.
Arguments Raise {A} e.

(** A file-system action: run from a state, it gives the states the file
    system passes through, one per write and oldest first, and either a
    value or the exception raised. *)
Definition FSAction (A : Type) : Type := FS -> list FS * Result A.

(** The state reached after a run from [fs] with the writes [trace]. *)
Definition current (fs : FS) (trace : list FS) : FS := default fs (last trace).

Definition fs_ret {A} (a : A) : FSAction A := fun _ => ([], Ok a).

Definition fs_raise {A} (e : Exn) : FSAction A := fun _ => ([], Raise e).

Definition fs_bind {A B} (m : FSAction A) (f : A -> FSAction B) : FSAction B :=
  fun fs =>
    match m fs with
    | (t1, Ok a) => let '(t2, r) := f a (current fs t1) in (t1 ++ t2, r)
    | (t1, Raise e) => (t1, Raise e)
    end.

Declare Scope fs_scope.
Delimit Scope fs_scope with fs.
Notation "x <- m ; k" := (fs_bind m (fun x => k))
  (at level 20, m at level 100, k at level 200, only parsing) : fs_scope.
Notation "m ;; k" := (fs_bind m (fun _ => k))
  (at level 100, k at level 200, right associativity, only parsing) : fs_scope.

(** One write: the file system becomes [g fs]. *)
Definition fs_write (g : FS -> FS) : FSAction unit := fun fs => ([g fs], Ok tt).

(** [zipfile.ZipFile(path, "r")]: the archive stored at [path]. *)
Definition zip_open_r (path : string) : FSAction Archive :=
  fun fs =>
    match fs !! path with
    | Some z => ([], Ok z)
    | None => ([], Raise (FileNotFoundError path))
    end.

(** [z.read(name)]. *)
Definition zip_read (z : Archive) (name : string) : FSAction bytes :=
  match NameToInfo z !! name with
  | Some data => fs_ret data
  | None => fs_raise (KeyError name)
  end.

(** [zipfile.ZipFile(path, "w", ...)]: the file is created empty, or
    truncated. *)
Definition zip_open_w (path : string) : FSAction unit :=
  fs_write (fun fs => <[path := []]> fs).

(** [zout.writestr(item, data)] on the archive being written at [path]: one
    more entry at its end. *)
Definition writestr (path : string) (item : ZipInfo) (data : bytes) : FSAction unit :=
  fs_write (fun fs => <[path := default [] (fs !! path) ++ [(item, data)]]> fs).

(** [os.replace(src, dst)]: in one step [dst] holds what [src] held and
    [src] is gone. *)
Definition os_replace (src dst : string) : FSAction unit :=
  fun fs =>
    match fs !! src with
    | Some z => ([<[dst := z]> (delete src fs)], Ok tt)
    | None => ([], Raise (FileNotFoundError src))
    end.

Definition document_xml : string := "word/document.xml".

Section Patcher.
Local Open Scope fs_scope.

(** [ET.fromstring]: [None] stands for a parse error. *)
Variable fromstring : bytes -> option Element.

(** [ET.tostring(root, encoding="utf-8", xml_declaration=True)]. *)
Variable tostring : Element -> bytes.

(** [with zipfile.ZipFile(path, "r") as z: xml = z.read("word/document.xml")]
    followed by [root = ET.fromstring(xml)]. *)
Definition read_document (path : string) : FSAction Element :=
  z <- zip_open_r path ;
  xml <- zip_read z document_xml ;
  match fromstring xml with
  | Some root => fs_ret root
  | None => fs_raise ParseError
  end.

(** [_extract_pgBorders_from_source(source_docx)]. *)
Definition _extract_pgBorders_from_source (source_docx : string)
    : FSAction (option Element) :=
  root <- read_document source_docx ;
  fs_ret (extract_pgBorders root).

(** The loop [for item in zin.infolist(): ...] writing into [new_docx]. *)
Fixpoint copy_entries (zin : Archive) (new_docx : string) (root : Element)
    (items : list ZipInfo) : FSAction unit :=
  match items with
  | [] => fs_ret tt
  | item :: rest =>
      data <- zip_read zin (filename item) ;
      let data := if bool_decide (filename item = document_xml)
                  then tostring root else data in
      writestr new_docx item data ;;
      copy_entries zin new_docx root rest
  end.

(** [_set_pgBorders_in_all_sections(target_docx, pgBorders_elem)].  The
    second [findall] runs on the tree the first loop has mutated. *)
Definition _set_pgBorders_in_all_sections (target_docx : string)
    (pgBorders_elem : Element) : FSAction bool :=
  root <- read_document target_docx ;
  let changed := false in
  let body_level := findall_body_sectPr root in
  let root := patch_body_level pgBorders_elem root in
  let changed := if body_level is [] then changed else true in
  let p_level := findall_p_sectPr root in
  let root := patch_p_level pgBorders_elem root in
  let changed := if p_level is [] then changed else true in
  if negb changed then fs_ret false
  else
    let new_docx := target_docx +:+ ".tmp" in
    zin <- zip_open_r target_docx ;
    zip_open_w new_docx ;;
    copy_entries zin new_docx root (map fst zin) ;;
    os_replace new_docx target_docx ;;
    fs_ret true.

(** [patch_art_page_borders(source_docx, output_docx)]. *)
Definition patch_art_page_borders (source_docx output_docx : string)
    : FSAction bool :=
  pg <- _extract_pgBorders_from_source source_docx ;
  match pg with
  | None => fs_ret false
  | Some pg => _set_pgBorders_in_all_sections output_docx pg
  end.

End Patcher.

(** ** The Word automation host

    Everything [transfer_layout] asks of Word over COM, and of the
    operating system beyond plain files, is a call: it may change the state
    of the host and the file system, and it returns a value or raises. *)

Definition Doc : Type := nat.
Definition Style : Type := nat.

Inductive Call : Type -> Type :=
  | CoInitialize : Call unit
  | CoUninitialize : Call unit
  | Dispatch (prog_id : string) : Call unit
  | SetVisible (v : bool) : Call unit
  | SetDisplayAlerts (v : Z) : Call unit
  | SetScreenUpdating (v : bool) : Call unit
  | SetEnableEvents (v : bool) : Call unit
  | DocumentsOpen (FileName : string) (ReadOnly : bool) : Call Doc
  | SaveCopyAs (doc : Doc) (FileName : string) (FileFormat : Z) : Call unit
  | SaveAs2 (doc : Doc) (FileName : string) (FileFormat : Z) : Call unit
  | SaveAs (doc : Doc) (FileName : string) (FileFormat : Z) : Call unit
  | Save (doc : Doc) : Call unit
  | Close (doc : Doc) : Call unit
  | Quit : Call unit
  | Application (doc : Doc) : Call unit
  | Styles (doc : Doc) : Call (list Style)
  | GetAttr (st : Style) (attr : string) : Call string
  | FullName (doc : Doc) : Call string
  | OrganizerCopy (Source Destination Name : string) (Object : Z) : Call unit
  | CopyStylesFromTemplate (doc : Doc) (Template : string) : Call unit
  | SectionsCount (doc : Doc) : Call Z
  | CopyPageSetup (src : Doc) (s_idx : Z) (dst : Doc) (i : Z) : Call unit
  | CopyPageBordersBasic (src : Doc) (s_idx : Z) (dst : Doc) (i : Z) : Call unit
  | CopyHeadersFooters (src : Doc) (s_idx : Z) (dst : Doc) (i : Z) : Call unit
  | IsDir (path : string) : Call bool
  | MakeDirs (path : string) : Call unit.

(** A call that was made, and whether it returned ([true]) or raised. *)
Inductive Event : Type :=
  | Called {R : Type} (c : Call R) (returned : bool).

Definition is_ok {A} (r : Result A) : bool :=
  match r with Ok _ => true | Raise _ => false end.

Section Pipeline.

(** The state of the Word process and of the documents it has open. *)
Variable H : Type.

(** What a call does. *)
Variable com : forall R, Call R -> H -> FS -> H * FS * Result R.

(** [os.path.abspath(os.path.expanduser(path))], [os.path.dirname],
    [tempfile.gettempdir()] and [os.path.join]. *)
Variable abspath_expanduser : string -> string.
Variable dirname : string -> string.
Variable gettempdir : string.
Variable path_join : string -> string -> string.

Variable fromstring : bytes -> option Element.
Variable tostring : Element -> bytes.

Record World : Type := mkWorld {
  files : FS;
  word : H;
  calls : list Event;
  logged : list string
}.

(** A step of the pipeline: the next world, and a value or an exception. *)
Definition M (A : Type) : Type := World -> World * Result A.

Definition ret {A} (a : A) : M A := fun w => (w, Ok a).

Definition raise {A} (e : Exn) : M A := fun w => (w, Raise e).

Definition bind {A B} (m : M A) (f : A -> M B) : M B :=
  fun w =>
    match m w with
    | (w', Ok a) => f a w'
    | (w', Raise e) => (w', Raise e)
    end.

Declare Scope pipeline_scope.
Delimit Scope pipeline_scope with pipeline.
Notation "x <- m ; k" := (bind m (fun x => k))
  (at level 20, m at level 100, k at level 200, only parsing) : pipeline_scope.
Notation "m ;; k" := (bind m (fun _ => k))
  (at level 100, k at level 200, right associativity, only parsing) : pipeline_scope.
Local Open Scope pipeline_scope.

(** [try: m  except Exception: handler]. *)
Definition try_except {A} (m handler : M A) : M A :=
  fun w =>
    match m w with
    | (w', Ok a) => (w', Ok a)
    | (w', Raise _) => handler w'
    end.

(** [try: m  except Exception: pass]. *)
Definition try_pass (m : M unit) : M unit := try_except m (ret tt).

(** [try: m  finally: cleanup]: the cleanup always runs; the outcome is
    that of [m] unless the cleanup itself raises. *)
Definition try_finally {A} (m : M A) (cleanup : M unit) : M A :=
  fun w =>
    let '(w', r) := m w in
    match cleanup w' with
    | (w'', Ok _) => (w'', r)
    | (w'', Raise e) => (w'', Raise e)
    end.

(** [for x in l: body(x)]. *)
Fixpoint for_each {A} (l : list A) (body : A -> M unit) : M unit :=
  match l with
  | [] => ret tt
  | x :: rest => body x ;; for_each rest body
  end.

Definition call {R} (c : Call R) : M R :=
  fun w =>
    let '(h, fs, r) := com R c (word w) (files w) in
    (mkWorld fs h (calls w ++ [Called c (is_ok r)]) (logged w), r).

Definition log (msg : string) : M unit :=
  fun w => (mkWorld (files w) (word w) (calls w) (logged w ++ [msg]), Ok tt).

(** [os.path.isfile(path)]. *)
Definition isfile (path : string) (w : World) : bool :=
  bool_decide (is_Some (files w !! path)).

(** [os.remove(path)]. *)
Definition os_remove (path : string) : M unit :=
  fun w =>
    match files w !! path with
    | Some _ => (mkWorld (delete path (files w)) (word w) (calls w) (logged w), Ok tt)
    | None => (w, Raise (FileNotFoundError path))
    end.

(** A file-system action run inside the pipeline. *)
Definition lift_fs {A} (m : FSAction A) : M A :=
  fun w =>
    let '(t, r) := m (files w) in
    (mkWorld (current (files w) t) (word w) (calls w) (logged w), r).

(** [save_docx(doc, path)]. *)
Definition save_docx (doc : Doc) (path : string) : M unit :=
  let dir_ := dirname path in
  (if bool_decide (dir_ ≠ "")
   then isdir <- call (IsDir dir_);
        if negb isdir then call (MakeDirs dir_) else ret tt
   else ret tt) ;;
  try_except (call (SaveCopyAs doc path 12))
    (try_except (call (SaveAs2 doc path 12))
       (call (SaveAs doc path 12))).

(** The loop [for attr in ("NameLocal", "Name")] of
    [try_organizer_copy_all_styles], from the current value of [name]
    ([None] at the start); an empty string is falsy. *)
Fixpoint style_name (st : Style) (attrs : list string) (name : option string)
    : M (option string) :=
  match attrs with
  | [] => ret name
  | attr :: rest =>
      fun w =>
        match call (GetAttr st attr) w with
        | (w', Ok n) =>
            if bool_decide (n ≠ "") then (w', Ok (Some n))
            else style_name st rest (Some n) w'
        | (w', Raise _) => style_name st rest name w'
        end
  end.

(** The body of [for st in src_doc.Styles], from the current [moved]. *)
Fixpoint organizer_loop (src_doc : Doc) (dst_doc_path : string)
    (styles : list Style) (moved : Z) : M Z :=
  match styles with
  | [] => ret moved
  | st :: rest =>
      name <- style_name st ["NameLocal"; "Name"] None;
      match name with
      | Some name =>
          if bool_decide (name ≠ "")
          then
            fun w =>
              match (source <- call (FullName src_doc);
                     call (OrganizerCopy source dst_doc_path name 3)) w with
              | (w', Ok _) => organizer_loop src_doc dst_doc_path rest (moved + 1) w'
              | (w', Raise _) => organizer_loop src_doc dst_doc_path rest moved w'
              end
          else organizer_loop src_doc dst_doc_path rest moved
      | None => organizer_loop src_doc dst_doc_path rest moved
      end
  end.

(** [try_organizer_copy_all_styles(src_doc, dst_doc_path)]. *)
Definition try_organizer_copy_all_styles (src_doc : Doc) (dst_doc_path : string)
    : M Z :=
  call (Application src_doc) ;;
  styles <- call (Styles src_doc);
  organizer_loop src_doc dst_doc_path styles 0.

Definition tmp_dotx : string := path_join gettempdir "style_source_tmp.dotx".

(** [copy_styles_via_template(work_doc, src_doc)]. *)
Definition copy_styles_via_template (work_doc src_doc : Doc) : M unit :=
  try_finally
    (try_except (call (SaveCopyAs src_doc tmp_dotx 16))
       (save_docx src_doc tmp_dotx) ;;
     call (CopyStylesFromTemplate work_doc tmp_dotx))
    (try_pass (os_remove tmp_dotx)).

(** [s_idx = i if (section_map and i <= src_count) else 1]. *)
Definition select_source_section (section_map : bool) (src_count i : Z) : Z :=
  if section_map && (i <=? src_count)%Z then i else 1%Z.

(** [shutil.copy2(src, dst)]. *)
Definition shutil_copy2 (src dst : string) : M unit :=
  fun w =>
    match files w !! src with
    | Some z => (mkWorld (<[dst := z]> (files w)) (word w) (calls w) (logged w), Ok tt)
    | None => (w, Raise (FileNotFoundError src))
    end.

(** The block "Styles first" of [transfer_layout]. *)
Definition copy_styles (src work : Doc) (output_docx : string) : M unit :=
  log "[INFO] Copying styles (Organizer)…" ;;
  moved <- try_organizer_copy_all_styles src output_docx;
  log ("[INFO] Styles moved via Organizer: " +:+ pretty moved) ;;
  if (moved =? 0)%Z
  then
    log "[WARN] Organizer moved 0 styles. Using CopyStylesFromTemplate fallback…" ;;
    copy_styles_via_template work src ;;
    log "[INFO] Styles copied via template."
  else ret tt.

(** The body of [for i in range(1, tgt_count + 1)]. *)
Definition copy_section (src work : Doc) (section_map : bool) (src_count i : Z)
    : M unit :=
  let s_idx := select_source_section section_map src_count i in
  log ("  - Applying SOURCE Section(" +:+ pretty s_idx +:+
       ") -> OUTPUT Section(" +:+ pretty i +:+ ")") ;;
  call (CopyPageSetup src s_idx work i) ;;
  call (CopyPageBordersBasic src s_idx work i) ;;
  call (CopyHeadersFooters src s_idx work i).

(** The block "Layout" of [transfer_layout]. *)
Definition copy_layout (src work : Doc) (section_map : bool) : M unit :=
  log "[INFO] Copying layout…" ;;
  src_count <- call (SectionsCount src);
  tgt_count <- call (SectionsCount work);
  for_each (seqZ 1 tgt_count) (copy_section src work section_map src_count).

(** [transfer_layout(source_docx, target_docx, output_docx, visible,
    section_map, log)]. *)
Definition transfer_layout (source_docx target_docx output_docx : string)
    (visible section_map : bool) : M string :=
  let source_docx := abspath_expanduser source_docx in
  let target_docx := abspath_expanduser target_docx in
  let output_docx := abspath_expanduser output_docx in
  fun w =>
  if negb (isfile source_docx w)
  then (w, Raise (FileNotFoundError ("Source not found: " +:+ source_docx)))
  else if negb (isfile target_docx w)
  then (w, Raise (FileNotFoundError ("Target not found: " +:+ target_docx)))
  else
  (log ("[INFO] SOURCE: " +:+ source_docx) ;;
   log ("[INFO] TARGET: " +:+ target_docx) ;;
   log ("[INFO] OUTPUT: " +:+ output_docx) ;;
   call CoInitialize ;;
   call (Dispatch "Word.Application") ;;
   call (SetVisible visible) ;;
   try_finally
     (try_pass (call (SetDisplayAlerts 0) ;;
                call (SetScreenUpdating false) ;;
                call (SetEnableEvents false)) ;;
      log "[INFO] Opening documents in Word…" ;;
      src <- call (DocumentsOpen source_docx true);
      tgt <- call (DocumentsOpen target_docx false);
      log "[INFO] Creating working copy…" ;;
      save_docx tgt output_docx ;;
      call (Close tgt) ;;
      work <- call (DocumentsOpen output_docx false);
      try_finally
        (copy_styles src work output_docx ;;
         copy_layout src work section_map ;;
         log "[INFO] Saving before XML patch…" ;;
         try_except (call (Save work))
           (let tmp := path_join gettempdir "docx_pre_patch.docx" in
            save_docx work tmp ;;
            shutil_copy2 tmp output_docx))
        (log "[INFO] Closing COM docs…" ;;
         try_pass (call (Close src)) ;;
         try_pass (call (Close work))))
     (log "[INFO] Quitting Word COM." ;;
      try_pass (call Quit) ;;
      call CoUninitialize) ;;
   log "[INFO] Patching artistic page borders via OpenXML…" ;;
   patched <- lift_fs (patch_art_page_borders fromstring tostring source_docx output_docx);
   (if patched
    then log "[SUCCESS] Artistic page borders patched."
    else log "[WARN] No w:pgBorders found in source; nothing to patch.") ;;
   ret output_docx) w.

End Pipeline.

Arguments files {H} _.
Arguments word {H} _.
Arguments calls {H} _.
Arguments logged {H} _.
Arguments mkWorld {H} _ _ _ _.
Arguments ret {H A} _ _.
Arguments raise {H A} _ _.
Arguments bind {H A B} _ _ _.
Arguments try_except {H A} _ _ _.
Arguments try_pass {H} _ _.
Arguments try_finally {H A} _ _ _.
Arguments for_each {H A} _ _.
Arguments call {H} _ {R} _ _.
Arguments log {H} _ _.
Arguments isfile {H} _ _.
Arguments os_remove {H} _ _.
Arguments lift_fs {H A} _ _.
Arguments shutil_copy2 {H} _ _ _.
Arguments save_docx {H} _ _ _ _.
Arguments style_name {H} _ _ _ _.
Arguments organizer_loop {H} _ _ _ _ _.
Arguments try_organizer_copy_all_styles {H} _ _ _.
Arguments copy_styles_via_template {H} _ _ _ _ _ _.
Arguments copy_styles {H} _ _ _ _ _ _ _.
Arguments copy_section {H} _ _ _ _ _ _.
Arguments copy_layout {H} _ _ _ _.
Arguments transfer_layout {H} _ _ _ _ _ _ _ _ _ _ _ _.

(** ** Elements as objects

    The same elements with the identity Python gives them: [oid] is the
    address of the object.  [ET.Element(...)] creates an object at an
    address no live object has; the allocator is modelled by the next unused
    address, which only grows. *)

Inductive Obj : Type :=
  mkObj {
    oid : nat;
    otag : string;
    oattrib : gmap string string;
    otext : option string;
    otail : option string;
    ochildren : list Obj
  }.

(** The element an object stands for, identities forgotten. *)
Fixpoint erase (o : Obj) : Element :=
  match o with
  | mkObj _ t a tx tl cs => mkElement t a tx tl (map erase cs)
  end.

(** The addresses of an object and of all its subelements. *)
Fixpoint oids (o : Obj) : list nat :=
  match o with
  | mkObj i _ _ _ _ cs => i :: flat_map oids cs
  end.

Section Allocation.

Context {A B : Type}.
Variable f : A -> nat -> B * nat.

(** [f] on every element of a list in turn, the allocator threaded
    through. *)
Fixpoint alloc_map (l : list A) (next : nat) : list B * nat :=
  match l with
  | [] => ([], next)
  | x :: rest =>
      let '(y, next) := f x next in
      let '(ys, next) := alloc_map rest next in
      (y :: ys, next)
  end.

End Allocation.

(** [_deepcopy(elem)] on objects: [new = ET.Element(elem.tag, elem.attrib)]
    takes the next address, then the copies of the children are made and
    appended in order. *)
Fixpoint deepcopy_obj (elem : Obj) (next : nat) : Obj * nat :=
  match elem with
  | mkObj _ t a tx tl cs =>
      let '(cs', next') := alloc_map deepcopy_obj cs (S next) in
      (mkObj next t a tx tl cs', next')
  end.

Fixpoint remove_first_obj (path : string) (cs : list Obj) : list Obj :=
  match cs with
  | [] => []
  | c :: rest =>
      if bool_decide (otag c = path) then rest
      else c :: remove_first_obj path rest
  end.

(** [_insert_pgBorders_schema_order(sectpr, pgBorders_elem)] on objects:
    the children that stay keep their identity, the inserted child is the
    object [_deepcopy] returns. *)
Definition insert_obj (pgBorders_elem sectpr : Obj) (next : nat) : Obj * nat :=
  let cs :=
    match List.find (fun c => bool_decide (otag c = pgBorders)) (ochildren sectpr) with
    | Some _ => remove_first_obj pgBorders (ochildren sectpr)
    | None => ochildren sectpr
    end in
  let '(copy, next') := deepcopy_obj pgBorders_elem next in
  (mkObj (oid sectpr) (otag sectpr) (oattrib sectpr) (otext sectpr) (otail sectpr)
     (list_insert_py (insert_idx (map erase cs)) copy cs),
   next').

(** [for sectpr in sectprs: _insert_pgBorders_schema_order(sectpr, pg)] on
    a list of section-properties objects. *)
Definition insert_all (pgBorders_elem : Obj) (sectprs : list Obj) (next : nat)
    : list Obj * nat :=
  alloc_map (insert_obj pgBorders_elem) sectprs next.

(** ** Vocabulary of the properties *)

(** An element with no attribute and no text, for the examples. *)
Definition elem (t : string) (cs : list Element) : Element :=
  mkElement t ∅ None None cs.

(** Child [j] of the list carries a tag of the "after" group (page type,
    page size, page margins, paper source), resp. of the "before" group
    (line numbering, page numbering, columns, document grid). *)
Definition after_at (cs : list Element) (j : nat) : Prop :=
  exists ch, cs !! j = Some ch /\ tag ch ∈ after_tags.

Definition before_at (cs : list Element) (j : nat) : Prop :=
  exists ch, cs !! j = Some ch /\ tag ch ∈ before_tags.


(** Every child of the "after" group stands before every child of the
    "before" group: the children respect the schema order of the
    container. *)
Definition groups_in_schema_order (cs : list Element) : Prop :=
  forall i j, after_at cs i -> before_at cs j -> i < j.

(** A section-properties element contains a fragment. *)
Definition has_pgBorders (sectpr : Element) : bool :=
  bool_decide (children_with pgBorders sectpr ≠ []).

(** The extraction rule in the words of the design document: the fragment
    of the last body-level section-properties element if it contains one;
    otherwise the fragment of the last paragraph-embedded
    section-properties element that contains one; otherwise nothing. *)
Definition extract_as_documented (root : Element) : option Element :=
  match pg_of_last (findall_body_sectPr root) with
  | Some pg => Some pg
  | None => pg_of_last (List.filter has_pgBorders (findall_p_sectPr root))
  end.

(** A document whose body holds two paragraphs with a section break each
    (the first with a fragment, the second without) and a final
    section-properties element without a fragment. *)
Definition two_breaks_document : Element :=
  elem (w "document")
    [elem (w "body")
       [elem (w "p") [elem (w "pPr") [elem (w "sectPr")
                        [elem (w "pgSz") []; elem pgBorders [elem (w "top") []]]]];
        elem (w "p") [elem (w "pPr") [elem (w "sectPr") [elem (w "pgSz") []]]];
        elem (w "sectPr") [elem (w "pgSz") []]]].

(** A document with one section break carrying a fragment and a final
    section-properties element without one. *)
Definition one_break_document : Element :=
  elem (w "document")
    [elem (w "body")
       [elem (w "p") [elem (w "pPr") [elem (w "sectPr")
                        [elem (w "pgSz") []; elem pgBorders [elem (w "top") []]]]];
        elem (w "sectPr") [elem (w "pgSz") []]]].

(** The entry names of an archive, in [infolist()] order. *)
Definition names (z : Archive) : list string := map (fun e => filename e.1) z.

(** The tree [_set_pgBorders_in_all_sections] serialises: both loops
    applied. *)
Definition patched_root (pg root : Element) : Element :=
  patch_p_level pg (patch_body_level pg root).

(** The content written for the entry called [name]: the serialised tree
    for the body part, what [zin.read(name)] returns otherwise. *)
Definition rewritten_data (tostring : Element -> bytes) (zin : Archive)
    (root : Element) (name : string) : bytes :=
  if bool_decide (name = document_xml) then tostring root
  else default [] (NameToInfo zin !! name).

(** The archive the rewrite loop produces from [zin]. *)
Definition rewritten_archive (tostring : Element -> bytes) (zin : Archive)
    (root : Element) : Archive :=
  map (fun e => (e.1, rewritten_data tostring zin root (filename e.1))) zin.

(** A document with a single final section-properties element. *)
Definition plain_document : Element :=
  elem (w "document")
    [elem (w "body")
       [elem (w "p") [];
        elem (w "sectPr") [elem (w "pgSz") []; elem (w "cols") []]]].

(** A stand-in for the XML parser and serialiser in the examples: the
    one-byte contents [01] and [02] stand for the two documents above. *)
Definition example_fromstring (xml : bytes) : option Element :=
  match xml with
  | [Byte.x01] => Some one_break_document
  | [Byte.x02] => Some plain_document
  | _ => None
  end.

Definition example_tostring (root : Element) : bytes := [Byte.x03].

(** A file system with a source package and a target package of two
    parts. *)
Definition example_fs : FS :=
  {[ "source.docx" := [(mkZipInfo document_xml 0 8, [Byte.x01])];
     "target.docx" := [(mkZipInfo document_xml 0 8, [Byte.x02]);
                       (mkZipInfo "word/styles.xml" 0 8, [Byte.x07; Byte.x08])] ]}.

(** The events the properties of the pipeline speak of: a named-style copy
    that returned, the style enumeration having returned, and the calls of
    the template fallback (the snapshot saved as a template, format 16, and
    the template applied). *)
Definition organizer_copied (ev : Event) : bool :=
  match ev with
  | Called c returned =>
      match c with
      | OrganizerCopy _ _ _ _ => returned
      | _ => false
      end
  end.

Definition styles_listed (ev : Event) : bool :=
  match ev with
  | Called c returned =>
      match c with
      | Styles _ => returned
      | _ => false
      end
  end.

Definition fallback_call (ev : Event) : bool :=
  match ev with
  | Called c _ =>
      match c with
      | SaveCopyAs _ _ fmt => (fmt =? 16)%Z
      | CopyStylesFromTemplate _ _ => true
      | _ => false
      end
  end.

(** Neither a named-style copy nor the style enumeration. *)
Definition not_organizer (ev : Event) : bool :=
  negb (organizer_copied ev) && negb (styles_listed ev).

(** Every call an action makes satisfies [Q]; the calls already made are
    kept. *)
Definition only {H A} (Q : Event -> bool) (m : M H A) : Prop :=
  forall w, exists evs,
    calls (m w).1 = calls w ++ evs /\ forallb Q evs = true.

(** A host for the examples: documents open under handle 0, two styles
    named "Normal", two sections in every document, saving creates an empty
    package, and the named-style copy raises when [organizer_fails]. *)
Definition example_com (organizer_fails : bool) (R : Type) (c : Call R)
    (h : unit) (fs : FS) : unit * FS * Result R :=
  match c in Call R return unit * FS * Result R with
  | DocumentsOpen _ _ => (h, fs, Ok 0)
  | SaveCopyAs _ path _ => (h, <[path := []]> fs, Ok tt)
  | Styles _ => (h, fs, Ok [1; 2])
  | GetAttr _ _ => (h, fs, Ok "Normal")
  | FullName _ => (h, fs, Ok "source.docx")
  | OrganizerCopy _ _ _ _ =>
      (h, fs, if organizer_fails then Raise (ComError "OrganizerCopy") else Ok tt)
  | SectionsCount _ => (h, fs, Ok 2%Z)
  | IsDir _ => (h, fs, Ok true)
  | _ => (h, fs, Ok tt)
  end.

Definition example_world : World unit := mkWorld example_fs tt [] [].

(** The number of named-style copies that returned, among the calls
    made. *)
Definition organizer_successes (evs : list Event) : Z :=
  Z.of_nat (length (List.filter organizer_copied evs)).

(** A call that is neither of the organizer nor of the template fallback. *)
Definition neutral_call (ev : Event) : bool :=
  not_organizer ev && negb (fallback_call ev).

Definition any_call (ev : Event) : bool := true.

(** The first call an action makes is [c], whatever the world it starts
    in. *)
Definition starts_with {H A R} (c : Call R) (m : M H A) : Prop :=
  forall w, exists returned rest,
    calls (m w).1 = calls w ++ Called c returned :: rest.

(** ** Vocabulary of the further properties *)

(** The element with every [pgBorders] element removed, at any depth. *)
Fixpoint strip_pgBorders (e : Element) : Element :=
  match e with
  | mkElement t a tx tl cs =>
      mkElement t a tx tl
        (flat_map (fun c => if bool_decide (tag c = pgBorders) then []
                            else [strip_pgBorders c]) cs)
  end.

(** * Part II: the theory *)

(** ** Elements *)

(** Induction over an element with the hypothesis available for every
    child. *)
Lemma Element_children_ind (P : Element -> Prop) :
  (forall t a tx tl cs, Forall P cs -> P (mkElement t a tx tl cs)) ->
  forall e, P e.
Proof.
  intros step. fix IH 1. intros [t a tx tl cs]. apply step.
  induction cs as [|c cs IHcs]; constructor; [apply IH | exact IHcs].
Qed.

Lemma _deepcopy_eq (e : Element) : _deepcopy e = e.
Proof.
  induction e as [t a tx tl cs IH] using Element_children_ind. simpl.
  f_equal. induction IH as [|c cs Hc _ IHcs]; simpl; [done|].
  by rewrite Hc, IHcs.
Qed.

Lemma list_insert_py_in_range {A} (i : Z) (x : A) (l : list A) :
  (0 <= i <= Z.of_nat (length l))%Z ->
  list_insert_py i x l = take (Z.to_nat i) l ++ x :: drop (Z.to_nat i) l.
Proof.
  intros Hi. unfold list_insert_py.
  destruct (Z.ltb_spec i 0); [lia|]. by rewrite Z.min_l by lia.
Qed.

Lemma list_insert_py_take_drop {A} (i : Z) (x : A) (l : list A) :
  exists n, list_insert_py i x l = take n l ++ x :: drop n l.
Proof. unfold list_insert_py. eauto. Qed.

(** ** The insertion index *)

Section IndexFacts.
Local Open Scope Z_scope.

Lemma scan_after_mono cs : forall i a, a < i -> a <= scan_after i cs a < i + Z.of_nat (length cs).
Proof.
  induction cs as [|ch cs IH]; intros i a Ha; cbn [scan_after length]; [lia|].
  destruct (bool_decide _ && _).
  - specialize (IH (i + 1) i). lia.
  - specialize (IH (i + 1) a). lia.
Qed.

Lemma scan_after_covers cs : forall i a k,
  a < i -> after_at cs k -> i + Z.of_nat k <= scan_after i cs a.
Proof.
  induction cs as [|ch cs IH]; intros i a k Ha [c [Hk Hc]]; [done|].
  cbn [scan_after]. destruct k as [|k].
  - injection Hk as ->. rewrite bool_decide_eq_true_2 by done.
    destruct (Z.ltb_spec a i); [|lia]. cbn [andb].
    pose proof (scan_after_mono cs (i + 1) i). lia.
  - assert (Hk' : after_at cs k) by (exists c; done).
    destruct (bool_decide _ && _).
    + specialize (IH (i + 1) i k ltac:(lia) Hk'). lia.
    + specialize (IH (i + 1) a k ltac:(lia) Hk'). lia.
Qed.


Lemma scan_before_first cs : forall i d k,
  before_at cs k -> scan_before i cs d <= i + Z.of_nat k.
Proof.
  induction cs as [|ch cs IH]; intros i d k [c [Hk Hc]]; [done|].
  cbn [scan_before]. case_bool_decide as Hch; [lia|].
  destruct k as [|k]; [by injection Hk as ->|].
  assert (Hk' : before_at cs k) by (exists c; done).
  specialize (IH (i + 1) d k Hk'). lia.
Qed.

Lemma scan_before_absent cs : forall i d,
  (forall k, ~ before_at cs k) -> scan_before i cs d = d.
Proof.
  induction cs as [|ch cs IH]; intros i d Hno; simpl; [done|].
  rewrite bool_decide_eq_false_2.
  - apply IH. intros k [c Hc]. apply (Hno (S k)). by exists c.
  - intros Hin. apply (Hno 0%nat). by exists ch.
Qed.

(** Either no child is of the "before" group and the loop leaves the
    default, or it stops at one. *)
Lemma scan_before_found cs : forall i d,
  (scan_before i cs d = d /\ forall k, ~ before_at cs k) \/
  (exists k, before_at cs k /\ scan_before i cs d = i + Z.of_nat k).
Proof.
  induction cs as [|ch cs IH]; intros i d; cbn [scan_before].
  - left. split; [done|]. intros k [c [Hk _]]. done.
  - case_bool_decide as Hch.
    + right. exists 0%nat. split; [by exists ch | lia].
    + destruct (IH (i + 1) d) as [[-> Hno] | [k [Hk ->]]].
      * left. split; [done|]. intros [|k] [c [Hk Hc]].
        -- by injection Hk as ->.
        -- apply (Hno k). by exists c.
      * right. exists (S k). split; [|lia].
        destruct Hk as [c Hc]. by exists c.
Qed.

Lemma insert_idx_range cs : 0 <= insert_idx cs <= Z.of_nat (length cs).
Proof.
  unfold insert_idx.
  pose proof (scan_after_mono cs 0 (-1)).
  destruct (scan_before_found cs 0 (Z.of_nat (length cs))) as [[-> _] | [k [_ ->]]]; lia.
Qed.

Lemma after_at_lt cs j : after_at cs j -> (j < length cs)%nat.
Proof. intros [c [Hj _]]. by eapply lookup_lt_Some. Qed.

End IndexFacts.

(** ** The claims on the insertion index *)

Lemma after_tags_spec t :
  t ∈ after_tags <-> t = w "type" \/ t = w "pgSz" \/ t = w "pgMar" \/ t = w "paperSrc".
Proof. unfold after_tags. rewrite !elem_of_union, !elem_of_singleton. tauto. Qed.

Lemma before_tags_spec t :
  t ∈ before_tags <->
  t = w "lnNumType" \/ t = w "pgNumType" \/ t = w "cols" \/ t = w "docGrid".
Proof. unfold before_tags. rewrite !elem_of_union, !elem_of_singleton. tauto. Qed.




(** ** Removing and inserting the fragment *)

Lemma find_head_children_with path e :
  find path e = head (children_with path e).
Proof.
  unfold find, children_with. induction (children e) as [|c cs IH]; simpl; [done|].
  by destruct (bool_decide _).
Qed.

Lemma remove_first_length_filter path cs :
  length (List.filter (fun e => bool_decide (tag e = path)) (remove_first path cs)) =
  Nat.pred (length (List.filter (fun e => bool_decide (tag e = path)) cs)).
Proof.
  induction cs as [|c cs IH]; simpl; [done|].
  destruct (bool_decide (tag c = path)) eqn:Hc; simpl; [done|].
  by rewrite Hc.
Qed.

Lemma remove_first_absent path cs :
  List.filter (fun e => bool_decide (tag e = path)) cs = [] ->
  remove_first path cs = cs.
Proof.
  induction cs as [|c cs IH]; simpl; [done|].
  destruct (bool_decide (tag c = path)); [done|]. intros Hf. by rewrite IH.
Qed.

Lemma remove_first_inserted path (x : Element) n cs :
  tag x = path ->
  List.filter (fun e => bool_decide (tag e = path)) cs = [] ->
  remove_first path (take n cs ++ x :: drop n cs) = cs.
Proof.
  intros Hx. revert n. induction cs as [|c cs IH]; intros n Hf.
  - rewrite take_nil, drop_nil. simpl. by rewrite bool_decide_eq_true_2.
  - simpl in Hf. destruct (bool_decide (tag c = path)) eqn:Hc; [done|].
    destruct n as [|n]; simpl.
    + by rewrite bool_decide_eq_true_2.
    + rewrite Hc. by rewrite IH.
Qed.

Lemma filter_inserted_length {A} (p : A -> bool) (x : A) n cs :
  length (List.filter p (take n cs ++ x :: drop n cs)) =
  (length (List.filter p cs) + (if p x then 1 else 0))%nat.
Proof.
  rewrite <- (take_drop n cs) at 3.
  rewrite !List.filter_app, !length_app. simpl.
  destruct (p x); simpl; lia.
Qed.

(** What is left once the existing fragment is removed. *)
Lemma remove_existing_children sectpr :
  children (remove_existing sectpr) = remove_first pgBorders (children sectpr).
Proof.
  unfold remove_existing. destruct (find pgBorders sectpr) eqn:Hf; [done|].
  symmetry. apply remove_first_absent.
  rewrite find_head_children_with in Hf. unfold children_with in Hf.
  by destruct (List.filter _ _).
Qed.

Lemma remove_existing_eq sectpr :
  remove_existing sectpr =
  set_children sectpr (remove_first pgBorders (children sectpr)).
Proof.
  rewrite <- remove_existing_children. unfold remove_existing.
  destruct (find pgBorders sectpr); [done|]. by destruct sectpr.
Qed.

Lemma count_tag_remove_existing sectpr :
  count_tag pgBorders (remove_existing sectpr) =
  Nat.pred (count_tag pgBorders sectpr).
Proof.
  unfold count_tag, children_with. rewrite remove_existing_children.
  apply remove_first_length_filter.
Qed.

Lemma _insert_pgBorders_schema_order_eq sectpr pg :
  exists n,
    _insert_pgBorders_schema_order sectpr pg =
    set_children sectpr
      (take n (remove_first pgBorders (children sectpr)) ++
       pg :: drop n (remove_first pgBorders (children sectpr))) /\
    Z.of_nat n = insertion_index sectpr.
Proof.
  unfold _insert_pgBorders_schema_order, insertion_index.
  rewrite _deepcopy_eq, remove_existing_eq. cbn [children set_children tag attrib text tail].
  set (cs := remove_first pgBorders (children sectpr)).
  pose proof (insert_idx_range cs) as Hr.
  exists (Z.to_nat (insert_idx cs)). split; [|lia].
  by rewrite list_insert_py_in_range.
Qed.

Lemma count_tag_insert sectpr pg :
  tag pg = pgBorders ->
  count_tag pgBorders (_insert_pgBorders_schema_order sectpr pg) =
  S (Nat.pred (count_tag pgBorders sectpr)).
Proof.
  intros Hpg. destruct (_insert_pgBorders_schema_order_eq sectpr pg) as [n [-> _]].
  unfold count_tag, children_with. cbn [children set_children].
  rewrite filter_inserted_length, remove_first_length_filter.
  rewrite bool_decide_eq_true_2 by done. lia.
Qed.

(** Once patched, a section with at most one fragment is a fixed point. *)
Lemma _insert_pgBorders_schema_order_fixed sectpr pg :
  tag pg = pgBorders ->
  count_tag pgBorders sectpr <= 1 ->
  let once := _insert_pgBorders_schema_order sectpr pg in
  _insert_pgBorders_schema_order once pg = once.
Proof.
  intros Hpg Hcount once.
  assert (Hnone : List.filter (fun e => bool_decide (tag e = pgBorders))
                    (remove_first pgBorders (children sectpr)) = []).
  { apply length_zero_iff_nil. rewrite remove_first_length_filter.
    unfold count_tag, children_with in Hcount. lia. }
  assert (Hrem : remove_existing once = remove_existing sectpr).
  { subst once. destruct (_insert_pgBorders_schema_order_eq sectpr pg) as [n [-> _]].
    rewrite !remove_existing_eq. cbn [children set_children tag attrib text tail].
    unfold set_children. f_equal. by apply remove_first_inserted. }
  subst once. unfold _insert_pgBorders_schema_order at 1. rewrite Hrem. done.
Qed.

(** C2.  Applying [_insert_pgBorders_schema_order] any number [n >= 1] of
    times to a section-properties element that starts with at most one
    [pgBorders] child, with the same extracted fragment, leaves exactly one
    [pgBorders] child; the element is the one a single application gives. *)
Theorem insert_pgBorders_idempotent (sectpr pg : Element) (n : nat) :
  tag pg = pgBorders ->
  count_tag pgBorders sectpr <= 1 ->
  1 <= n ->
  let patched := Nat.iter n (fun s => _insert_pgBorders_schema_order s pg) sectpr in
  count_tag pgBorders patched = 1 /\
  patched = _insert_pgBorders_schema_order sectpr pg.
Proof.
  intros Hpg Hcount Hn patched.
  assert (Hone : count_tag pgBorders (_insert_pgBorders_schema_order sectpr pg) = 1)
    by (rewrite count_tag_insert by done; lia).
  assert (Heq : patched = _insert_pgBorders_schema_order sectpr pg).
  { subst patched. induction n as [|m IH]; [lia|].
    destruct m as [|m]; [done|].
    rewrite Nat.iter_succ, IH by lia.
    by apply _insert_pgBorders_schema_order_fixed. }
  by rewrite Heq.
Qed.

(** C2, an instance: a section with a page size, an old fragment and
    columns, patched three times with a fragment holding a top border. *)
Lemma insert_pgBorders_idempotent_witness :
  count_tag pgBorders
    (Nat.iter 3
       (fun s => _insert_pgBorders_schema_order s
                   (elem pgBorders [elem (w "top") []]))
       (elem (w "sectPr")
          [elem (w "pgSz") []; elem pgBorders []; elem (w "cols") []])) = 1.
Proof.
  apply (insert_pgBorders_idempotent
           (elem (w "sectPr")
              [elem (w "pgSz") []; elem pgBorders []; elem (w "cols") []])
           (elem pgBorders [elem (w "top") []]) 3).
  - reflexivity.
  - vm_compute. lia.
  - lia.
Defined.

(** ** Extraction of the fragment *)

Lemma pg_of_last_Some sectprs pg :
  pg_of_last sectprs = Some pg <->
  exists sectpr, last sectprs = Some sectpr /\
                 head (children_with pgBorders sectpr) = Some pg.
Proof.
  unfold pg_of_last. destruct (last sectprs) as [s|].
  - rewrite find_head_children_with. split; [eauto|].
    by intros [s' [[= <-] Hs]].
  - split; [done|]. by intros [s' [? _]].
Qed.

Lemma children_with_tag path e c : c ∈ children_with path e -> tag c = path.
Proof.
  unfold children_with. rewrite list_elem_of_In, List.filter_In.
  intros [_ Hc]. by apply bool_decide_eq_true in Hc.
Qed.

(** C4, as amended.  [_extract_pgBorders_from_source] looks at one
    section-properties element per level: the last body-level one, and its
    first [pgBorders] child is the result if it has one; otherwise the last
    paragraph-level one, and its first [pgBorders] child is the result if it
    has one (earlier paragraph-level elements are not consulted); otherwise
    nothing, and then [patch_art_page_borders] writes nothing and returns
    false.  A fragment returned is a [pgBorders] element. *)
Theorem extract_pgBorders_rule (root : Element) :
  let body_pg := last (findall_body_sectPr root) ≫= find pgBorders in
  let p_pg := last (findall_p_sectPr root) ≫= find pgBorders in
  (forall pg, body_pg = Some pg -> extract_pgBorders root = Some pg) /\
  (forall pg, body_pg = None -> p_pg = Some pg -> extract_pgBorders root = Some pg) /\
  (body_pg = None -> p_pg = None ->
   extract_pgBorders root = None /\
   forall fromstring tostring source_docx output_docx fs,
     read_document fromstring source_docx fs = ([], Ok root) ->
     patch_art_page_borders fromstring tostring source_docx output_docx fs
     = ([], Ok false)) /\
  (forall pg, extract_pgBorders root = Some pg -> tag pg = pgBorders).
Proof.
  intros body_pg p_pg.
  assert (Hb : pg_of_last (findall_body_sectPr root) = body_pg)
    by (unfold pg_of_last, body_pg; by destruct (last _)).
  assert (Hp : pg_of_last (findall_p_sectPr root) = p_pg)
    by (unfold pg_of_last, p_pg; by destruct (last _)).
  unfold extract_pgBorders. rewrite Hb, Hp.
  split; [|split; [|split]].
  - by intros pg ->.
  - by intros pg -> ->.
  - intros -> ->. split; [done|].
    intros fromstring tostring source_docx output_docx fs Hread.
    unfold patch_art_page_borders, _extract_pgBorders_from_source, fs_bind.
    rewrite Hread. cbn. unfold extract_pgBorders. by rewrite Hb, Hp.
  - assert (Htag : forall sectprs pg, pg_of_last sectprs = Some pg -> tag pg = pgBorders).
    { intros sectprs pg [s [_ Hs]]%pg_of_last_Some.
      apply (children_with_tag pgBorders s). by apply head_Some_elem_of. }
    intros pg. rewrite <- Hb, <- Hp.
    destruct (pg_of_last (findall_body_sectPr root)) eqn:Hbody.
    + intros [= <-]. eauto.
    + eauto.
Qed.

(** C4, the rule as documented differs from the code on a document with
    two section breaks of which only the first carries a fragment: the code
    consults the last section break only and extracts nothing. *)
Lemma extract_as_documented_counterexample :
  extract_pgBorders two_breaks_document
  <> extract_as_documented two_breaks_document.
Proof.
  assert (Hcode : extract_pgBorders two_breaks_document = None)
    by (vm_compute; reflexivity).
  assert (Hdoc : extract_as_documented two_breaks_document
                 = Some (elem pgBorders [elem (w "top") []]))
    by (vm_compute; reflexivity).
  rewrite Hcode, Hdoc. discriminate.
Qed.

(** C4, an instance: the final section-properties element has no fragment,
    the only section break has one, and it is extracted. *)
Lemma extract_pgBorders_rule_witness :
  extract_pgBorders one_break_document
  = Some (elem pgBorders [elem (w "top") []]).
Proof.
  pose proof (extract_pgBorders_rule one_break_document) as Hthm.
  cbv zeta in Hthm. destruct Hthm as [_ [Hp _]].
  apply Hp; vm_compute; reflexivity.
Defined.

(** ** Archives *)

Lemma NameToInfo_snoc z e :
  NameToInfo (z ++ [e]) = <[filename e.1 := e.2]> (NameToInfo z).
Proof. unfold NameToInfo. by rewrite foldl_snoc. Qed.

Lemma names_snoc z e : names (z ++ [e]) = names z ++ [filename e.1].
Proof. unfold names. by rewrite map_app. Qed.

Lemma NameToInfo_is_Some z name :
  is_Some (NameToInfo z !! name) <-> name ∈ names z.
Proof.
  induction z as [|e z IH] using rev_ind.
  - unfold NameToInfo, names. simpl. rewrite lookup_empty, elem_of_nil.
    split; [by intros [? ?] | done].
  - rewrite NameToInfo_snoc, names_snoc, elem_of_app, list_elem_of_singleton.
    destruct (decide (filename e.1 = name)) as [<-|Hne].
    + rewrite lookup_insert_eq. split; eauto.
    + rewrite lookup_insert_ne by done. rewrite IH. split; [tauto|].
      intros [?|?]; [done | congruence].
Qed.

(** When the content of every entry is a function of its name, reading a
    name gives that function's value. *)
Lemma NameToInfo_by_name (h : string -> bytes) z name :
  NameToInfo (map (fun e => (e.1, h (filename e.1))) z) !! name =
  if decide (name ∈ names z) then Some (h name) else None.
Proof.
  induction z as [|e z IH] using rev_ind.
  - change (NameToInfo (map _ [])) with (∅ : gmap string bytes).
    rewrite lookup_empty. change (names []) with (@nil string).
    destruct (decide (name ∈ [])) as [Hin|_]; [|done].
    by apply elem_of_nil in Hin.
  - rewrite map_app. cbn [map]. rewrite NameToInfo_snoc, names_snoc. cbn [fst snd].
    destruct (decide (filename e.1 = name)) as [<-|Hne].
    + rewrite lookup_insert_eq, decide_True; [done|].
      rewrite elem_of_app, list_elem_of_singleton. by right.
    + rewrite lookup_insert_ne by done. rewrite IH.
      destruct (decide (name ∈ names z)) as [Hin|Hout].
      * rewrite decide_True; [done|]. rewrite elem_of_app. by left.
      * rewrite decide_False; [done|].
        rewrite elem_of_app, list_elem_of_singleton. intros [?|?]; [done | congruence].
Qed.

(** With distinct entry names, reading an entry's name gives its content. *)
Lemma NameToInfo_NoDup z item data :
  NoDup (names z) -> (item, data) ∈ z ->
  NameToInfo z !! filename item = Some data.
Proof.
  induction z as [|e z IH] using rev_ind; intros Hnd Hin.
  - by apply elem_of_nil in Hin.
  - rewrite names_snoc in Hnd. apply NoDup_app in Hnd as [Hnd [Hfresh _]].
    rewrite NameToInfo_snoc. apply elem_of_app in Hin as [Hin|Hin].
    + rewrite lookup_insert_ne; [by apply IH|].
      intros Heq. apply (Hfresh (filename item)).
      * unfold names. apply list_elem_of_fmap. by exists (item, data).
      * rewrite <- Heq. apply list_elem_of_singleton. done.
    + apply list_elem_of_singleton in Hin as <-. cbn. by rewrite lookup_insert_eq.
Qed.

Lemma string_length_app (a b : string) :
  String.length (a +:+ b) = String.length a + String.length b.
Proof. induction a as [|c a IH]; simpl; [done | by rewrite IH]. Qed.

Lemma tmp_path_fresh (target_docx : string) : target_docx +:+ ".tmp" <> target_docx.
Proof.
  intros Heq. apply (f_equal String.length) in Heq.
  rewrite string_length_app in Heq. simpl in Heq. lia.
Qed.

(** ** The two passes over the tree *)

Lemma flat_map_nil_inv {A B} (f : A -> list B) l :
  flat_map f l = [] -> Forall (fun x => f x = []) l.
Proof.
  induction l as [|x l IH]; simpl; [constructor|].
  intros [Hx Hl]%app_eq_nil. constructor; auto.
Qed.

Lemma child_step_app path l1 l2 :
  child_step path (l1 ++ l2) = child_step path l1 ++ child_step path l2.
Proof. unfold child_step. apply List.flat_map_app. Qed.

Lemma child_step_flat_map {A} path (f : A -> list Element) l :
  child_step path (flat_map f l) = flat_map (fun x => child_step path (f x)) l.
Proof.
  induction l as [|x l IH]; simpl; [done|].
  by rewrite child_step_app, IH.
Qed.

Lemma children_with_nil path e c :
  children_with path e = [] -> c ∈ children e -> tag c <> path.
Proof.
  unfold children_with. intros Hnil Hc Htag.
  assert (Hin : In c (List.filter (fun e0 => bool_decide (tag e0 = path)) (children e))).
  { apply List.filter_In. split; [by apply list_elem_of_In|].
    by apply bool_decide_eq_true. }
  rewrite Hnil in Hin. destruct Hin.
Qed.

Lemma map_id_Forall {A} (f : A -> A) l : Forall (fun x => f x = x) l -> map f l = l.
Proof. induction 1 as [|x l Hx _ IH]; simpl; [done | by rewrite Hx, IH]. Qed.

(** Where the first [findall] finds nothing below an element, the first
    loop leaves it as it is. *)
Lemma patch_body_from_id pg e : forall parent_is_body,
  (parent_is_body = true -> tag e <> w "sectPr") ->
  child_step (w "sectPr") (iter (w "body") e) = [] ->
  patch_body_from pg parent_is_body e = e.
Proof.
  induction e as [t a tx tl cs IH] using Element_children_ind.
  intros flag Hflag Hnone. cbn [iter] in Hnone.
  rewrite child_step_app, child_step_flat_map in Hnone.
  apply app_eq_nil in Hnone as [Hhere Hbelow].
  apply flat_map_nil_inv in Hbelow.
  cbn [patch_body_from].
  assert (Hcs : map (patch_body_from pg (bool_decide (t = w "body"))) cs = cs).
  { apply map_id_Forall. rewrite Forall_forall in IH, Hbelow |- *.
    intros c Hc. apply IH; [done| |by apply Hbelow].
    intros Hbody%bool_decide_eq_true. rewrite bool_decide_eq_true_2 in Hhere by done.
    unfold child_step in Hhere. cbn [flat_map] in Hhere. rewrite app_nil_r in Hhere.
    by apply (children_with_nil _ _ c Hhere). }
  rewrite Hcs. destruct flag; [|done].
  cbn [tag] in Hflag. rewrite bool_decide_eq_false_2 by auto. done.
Qed.

Lemma patch_body_level_id pg root :
  findall_body_sectPr root = [] -> patch_body_level pg root = root.
Proof.
  unfold findall_body_sectPr, descendant_step, patch_body_level.
  rewrite child_step_flat_map. intros Hnone%flat_map_nil_inv.
  rewrite (map_id_Forall (patch_body_from pg false)).
  - by destruct root.
  - eapply Forall_impl; [exact Hnone|]. intros c Hc. by apply patch_body_from_id.
Qed.

(** ** The patcher on the file system *)

Section PatcherFacts.

Variable fromstring : bytes -> option Element.
Variable tostring : Element -> bytes.

Lemma read_document_ok path fs z xml root :
  fs !! path = Some z ->
  NameToInfo z !! document_xml = Some xml ->
  fromstring xml = Some root ->
  read_document fromstring path fs = ([], Ok root).
Proof.
  intros Hz Hxml Hroot. unfold read_document, fs_bind, zip_open_r, zip_read.
  rewrite Hz. cbn. rewrite Hxml. cbn. rewrite Hroot. done.
Qed.

Lemma read_document_inv path fs t root :
  read_document fromstring path fs = (t, Ok root) ->
  t = [] /\ exists z xml,
    fs !! path = Some z /\ NameToInfo z !! document_xml = Some xml /\
    fromstring xml = Some root.
Proof.
  unfold read_document, fs_bind, zip_open_r, zip_read.
  destruct (fs !! path) as [z|]; [|done]. cbn.
  destruct (NameToInfo z !! document_xml) as [xml|] eqn:Hx; [|done]. cbn.
  destruct (fromstring xml) as [r|] eqn:Hr; cbn; [|done].
  intros [= <- <-]. split; [done|]. by exists z, xml.
Qed.

(** The rewrite loop: started with [acc] already written at [new_docx], it
    does not raise, appends the rewritten entries to [acc], and touches no
    other path. *)
Lemma copy_entries_run zin new_docx root items : forall fs acc,
  fs !! new_docx = Some acc ->
  (forall item, item ∈ items -> filename item ∈ names zin) ->
  exists trace,
    copy_entries tostring zin new_docx root items fs = (trace, Ok tt) /\
    current fs trace =
      <[new_docx := acc ++ map (fun item =>
           (item, rewritten_data tostring zin root (filename item))) items]> fs /\
    Forall (fun st => forall p, p <> new_docx -> st !! p = fs !! p) trace.
Proof.
  induction items as [|item rest IH]; intros fs acc Hacc Hnames.
  - exists []. cbn. rewrite app_nil_r. split; [done|]. split; [|constructor].
    unfold current. cbn. by rewrite insert_id.
  - assert (Hin : filename item ∈ names zin) by (apply Hnames; left).
    apply NameToInfo_is_Some in Hin as [data Hdata].
    set (written := (item, rewritten_data tostring zin root (filename item))).
    set (fs1 := <[new_docx := acc ++ [written]]> fs).
    destruct (IH fs1 (acc ++ [written])) as [t [Hrun [Hcur Hother]]].
    { unfold fs1. by rewrite lookup_insert_eq. }
    { intros i Hi. apply Hnames. by right. }
    exists (fs1 :: t). split; [|split].
    + cbn [copy_entries]. unfold fs_bind at 1. unfold zip_read. rewrite Hdata.
      cbn. unfold fs_bind, writestr, fs_write. cbn. rewrite Hacc. cbn.
      assert (Hd : (if bool_decide (filename item = document_xml)
                    then tostring root else data)
                   = rewritten_data tostring zin root (filename item))
        by (unfold rewritten_data; by rewrite Hdata).
      rewrite Hd. fold written. fold fs1. rewrite Hrun. done.
    + assert (Hc : current fs (fs1 :: t) = current fs1 t).
      { unfold current. destruct t as [|st t] using rev_ind; [done|].
        by rewrite app_comm_cons, !last_snoc. }
      rewrite Hc, Hcur. unfold fs1. rewrite insert_insert_eq.
      by rewrite <- app_assoc.
    + constructor.
      * intros p Hp. unfold fs1. by rewrite lookup_insert_ne.
      * eapply Forall_impl; [exact Hother|]. intros st Hst p Hp. cbn in Hst.
        rewrite Hst by done. unfold fs1. by rewrite lookup_insert_ne.
Qed.

(** The flag [changed] stays false exactly when neither [findall] of the
    original tree finds an element. *)
Lemma changed_false_iff pg root :
  (if findall_p_sectPr (patch_body_level pg root) is []
   then (if findall_body_sectPr root is [] then false else true)
   else true) = false <->
  findall_body_sectPr root = [] /\ findall_p_sectPr root = [].
Proof.
  destruct (findall_body_sectPr root) as [|s l] eqn:Hb.
  - rewrite patch_body_level_id by done.
    destruct (findall_p_sectPr root); split; try done. by intros [_ ?].
  - destruct (findall_p_sectPr _); split; try done; by intros [? _].
Qed.

(** Without a section-properties element nothing is written. *)
Lemma _set_pgBorders_in_all_sections_unchanged target_docx pg fs zin xml root :
  fs !! target_docx = Some zin ->
  NameToInfo zin !! document_xml = Some xml ->
  fromstring xml = Some root ->
  findall_body_sectPr root = [] -> findall_p_sectPr root = [] ->
  _set_pgBorders_in_all_sections fromstring tostring target_docx pg fs
  = ([], Ok false).
Proof.
  intros Hzin Hxml Hroot Hb Hp.
  pose proof (read_document_ok _ _ _ _ _ Hzin Hxml Hroot) as Hread.
  unfold _set_pgBorders_in_all_sections. unfold fs_bind at 1. rewrite Hread.
  cbn [current last default].
  assert (Hc : (if findall_p_sectPr (patch_body_level pg root) is []
                then (if findall_body_sectPr root is [] then false else true)
                else true) = false) by (by apply changed_false_iff).
  rewrite Hc. done.
Qed.

(** With one, the states passed through are those of the sibling file
    being written, the last of them holding the whole new archive, followed
    by the replacement. *)
Lemma _set_pgBorders_in_all_sections_changed target_docx pg fs zin xml root :
  fs !! target_docx = Some zin ->
  NameToInfo zin !! document_xml = Some xml ->
  fromstring xml = Some root ->
  findall_body_sectPr root <> [] \/ findall_p_sectPr root <> [] ->
  let new_docx := target_docx +:+ ".tmp" in
  let zout := rewritten_archive tostring zin (patched_root pg root) in
  exists mid,
    _set_pgBorders_in_all_sections fromstring tostring target_docx pg fs
    = (mid ++ [<[target_docx := zout]> (delete new_docx fs)], Ok true) /\
    last mid = Some (<[new_docx := zout]> fs) /\
    Forall (fun st => forall p, p <> new_docx -> st !! p = fs !! p) mid.
Proof.
  intros Hzin Hxml Hroot Hsome new_docx zout.
  pose proof (read_document_ok _ _ _ _ _ Hzin Hxml Hroot) as Hread.
  assert (Hc : (if findall_p_sectPr (patch_body_level pg root) is []
                then (if findall_body_sectPr root is [] then false else true)
                else true) = true).
  { apply not_false_iff_true. rewrite changed_false_iff. intros [? ?].
    by destruct Hsome. }
  assert (Hne : new_docx <> target_docx) by apply tmp_path_fresh.
  set (fs0 := <[new_docx := []]> fs).
  destruct (copy_entries_run zin new_docx (patched_root pg root)
              (map fst zin) fs0 []) as [t [Hrun [Hcur Hother]]].
  { unfold fs0. by rewrite lookup_insert_eq. }
  { intros item [e [-> He]]%list_elem_of_fmap. unfold names.
    apply list_elem_of_fmap. by exists e. }
  assert (Hzout : map (fun item => (item, rewritten_data tostring zin
                    (patched_root pg root) (filename item))) (map fst zin) = zout).
  { unfold zout, rewritten_archive. by rewrite map_map. }
  rewrite app_nil_l, Hzout in Hcur. unfold fs0 in Hcur at 2.
  rewrite insert_insert_eq in Hcur.
  exists (fs0 :: t). split; [|split].
  - unfold _set_pgBorders_in_all_sections. unfold fs_bind at 1. rewrite Hread.
    cbn [current last default]. rewrite Hc.
    cbn [negb app]. unfold fs_bind at 1. unfold zip_open_r. rewrite Hzin.
    cbn [current last default app].
    unfold fs_bind at 1. unfold zip_open_w, fs_write.
    change (current fs [<[target_docx +:+ ".tmp":=[]]> fs]) with fs0.
    unfold fs_bind at 1. fold new_docx. fold (patched_root pg root). rewrite Hrun.
    unfold fs_bind at 1. unfold os_replace. rewrite Hcur.
    rewrite lookup_insert_eq. cbn [fs_ret app current last default].
    by rewrite delete_insert_eq.
  - assert (Hl : last (fs0 :: t) = Some (current fs0 t)).
    { unfold current. destruct t as [|st t] using rev_ind; [done|].
      by rewrite app_comm_cons, !last_snoc. }
    by rewrite Hl, Hcur.
  - constructor.
    + intros p Hp. unfold fs0. by rewrite lookup_insert_ne.
    + eapply Forall_impl; [exact Hother|]. intros st Hst p Hp. cbn in Hst.
      rewrite Hst by done. unfold fs0. by rewrite lookup_insert_ne.
Qed.

(** C3.  On readable source and target packages, [patch_art_page_borders]
    returns; it returns false, with nothing written (the target package is
    unchanged), exactly when the source yields no fragment by the
    extraction rule or the target's body XML has no section-properties
    element at body level or paragraph level; otherwise it returns true. *)
Theorem patch_returns_false_iff (source_docx output_docx : string) (fs : FS)
    (zs zt : Archive) (xs xt : bytes) (sroot troot : Element) :
  fs !! source_docx = Some zs ->
  NameToInfo zs !! document_xml = Some xs ->
  fromstring xs = Some sroot ->
  fs !! output_docx = Some zt ->
  NameToInfo zt !! document_xml = Some xt ->
  fromstring xt = Some troot ->
  let no_fragment := extract_pgBorders sroot = None in
  let no_section :=
    findall_body_sectPr troot = [] /\ findall_p_sectPr troot = [] in
  exists trace b,
    patch_art_page_borders fromstring tostring source_docx output_docx fs
    = (trace, Ok b) /\
    ((b = false /\ current fs trace !! output_docx = fs !! output_docx)
     <-> (no_fragment \/ no_section)) /\
    (b = false -> trace = []) /\
    (~ (no_fragment \/ no_section) -> b = true).
Proof.
  intros Hzs Hxs Hsroot Hzt Hxt Htroot no_fragment no_section.
  pose proof (read_document_ok _ _ _ _ _ Hzs Hxs Hsroot) as Hread.
  assert (Hpatch :
    patch_art_page_borders fromstring tostring source_docx output_docx fs =
    match extract_pgBorders sroot with
    | None => ([], Ok false)
    | Some pg =>
        _set_pgBorders_in_all_sections fromstring tostring output_docx pg fs
    end).
  { unfold patch_art_page_borders, _extract_pgBorders_from_source.
    unfold fs_bind at 1 2. rewrite Hread. cbn [fs_ret current last default app].
    destruct (extract_pgBorders sroot) as [pg|]; [|done].
    by destruct (_set_pgBorders_in_all_sections _ _ _ _ _). }
  rewrite Hpatch. subst no_fragment.
  destruct (extract_pgBorders sroot) as [pg|] eqn:Hpg.
  - assert (Hdec : no_section \/
              (findall_body_sectPr troot <> [] \/ findall_p_sectPr troot <> [])).
    { unfold no_section. destruct (findall_body_sectPr troot); [|right; by left].
      destruct (findall_p_sectPr troot); [by left | right; by right]. }
    destruct Hdec as [[Hb Hp] | Hsome].
    + exists [], false. split; [|split; [|split]].
      * by eapply _set_pgBorders_in_all_sections_unchanged.
      * split; [by right | done].
      * done.
      * intros Hn. exfalso. apply Hn. by right.
    + destruct (_set_pgBorders_in_all_sections_changed
                  output_docx pg fs zt xt troot Hzt Hxt Htroot Hsome)
        as [mid [Hrun _]].
      eexists _, true. split; [exact Hrun|]. split; [|split]; [|done|done].
      split; [by intros [? _]|].
      intros [?|[Hb Hp]]; [done|]. exfalso. by destruct Hsome.
  - exists [], false. split; [done|]. split; [|split].
    + split; [by left | done].
    + done.
    + intros Hn. exfalso. apply Hn. by left.
Qed.

(** C8.  When [_set_pgBorders_in_all_sections] rewrites a package, the new
    archive has the entries of the old one in the same order with the same
    metadata; reading any name other than [word/document.xml] gives the
    bytes it gave before (and with distinct names every such entry is the
    entry it was); [word/document.xml] holds the serialised patched tree.
    The new archive is first written in full to [target_docx + ".tmp"],
    then moved over the target in one step: in every state before the last
    the target holds the old archive, in the last it holds the new one and
    the temporary file is gone; no other file is touched. *)
Theorem rewrite_preserves_other_parts (target_docx : string) (pg : Element)
    (fs : FS) (zin : Archive) (xml : bytes) (root : Element) :
  fs !! target_docx = Some zin ->
  NameToInfo zin !! document_xml = Some xml ->
  fromstring xml = Some root ->
  findall_body_sectPr root <> [] \/ findall_p_sectPr root <> [] ->
  let new_docx := target_docx +:+ ".tmp" in
  let zout := rewritten_archive tostring zin (patched_root pg root) in
  exists mid final,
    _set_pgBorders_in_all_sections fromstring tostring target_docx pg fs
    = (mid ++ [final], Ok true) /\
    final !! target_docx = Some zout /\
    map fst zout = map fst zin /\
    (forall name, name <> document_xml ->
       NameToInfo zout !! name = NameToInfo zin !! name) /\
    (NoDup (names zin) ->
     forall i e, zin !! i = Some e -> filename e.1 <> document_xml ->
                 zout !! i = Some e) /\
    NameToInfo zout !! document_xml = Some (tostring (patched_root pg root)) /\
    last mid = Some (<[new_docx := zout]> fs) /\
    Forall (fun st => st !! target_docx = Some zin) mid /\
    final !! new_docx = None /\
    Forall (fun st => forall p, p <> new_docx -> p <> target_docx ->
                                st !! p = fs !! p) (mid ++ [final]).
Proof.
  intros Hzin Hxml Hroot Hsome new_docx zout.
  assert (Hne : new_docx <> target_docx) by apply tmp_path_fresh.
  destruct (_set_pgBorders_in_all_sections_changed
              target_docx pg fs zin xml root Hzin Hxml Hroot Hsome)
    as [mid [Hrun [Hlast Hmid]]].
  fold new_docx zout in Hrun, Hlast, Hmid.
  exists mid, (<[target_docx := zout]> (delete new_docx fs)).
  assert (Hlookup : forall name,
    NameToInfo zout !! name =
    if decide (name ∈ names zin)
    then Some (rewritten_data tostring zin (patched_root pg root) name)
    else None).
  { intros name. unfold zout, rewritten_archive.
    apply (NameToInfo_by_name
             (rewritten_data tostring zin (patched_root pg root))). }
  split; [exact Hrun|]. split; [by rewrite lookup_insert_eq|].
  split; [unfold zout, rewritten_archive; by rewrite map_map|].
  split; [|split; [|split; [|split; [|split; [|split]]]]].
  - intros name Hname. rewrite Hlookup. unfold rewritten_data.
    rewrite bool_decide_eq_false_2 by done.
    destruct (decide (name ∈ names zin)) as [Hin|Hout].
    + apply NameToInfo_is_Some in Hin as [d Hd]. by rewrite Hd.
    + symmetry. apply eq_None_not_Some. by rewrite NameToInfo_is_Some.
  - intros Hnd i [item data] Hi Hname. cbn [fst] in Hname.
    unfold zout, rewritten_archive. rewrite list_lookup_fmap, Hi. cbn.
    unfold rewritten_data. rewrite bool_decide_eq_false_2 by done.
    rewrite (NameToInfo_NoDup zin item data Hnd); [done|].
    by eapply list_elem_of_lookup_2.
  - rewrite Hlookup. rewrite decide_True.
    + unfold rewritten_data. by rewrite bool_decide_eq_true_2.
    + apply NameToInfo_is_Some. by exists xml.
  - exact Hlast.
  - eapply Forall_impl; [exact Hmid|]. intros st Hst. cbn in Hst.
    by rewrite Hst.
  - rewrite lookup_insert_ne by done. by rewrite lookup_delete_eq.
  - apply Forall_app. split.
    + eapply Forall_impl; [exact Hmid|]. intros st Hst p Hp _. by apply Hst.
    + constructor; [|constructor]. intros p Hp Hp'.
      rewrite lookup_insert_ne by done. by rewrite lookup_delete_ne.
Qed.

End PatcherFacts.

(** C3, an instance: the source has a fragment and the target a
    section-properties element, so the patch returns true. *)
Lemma patch_returns_false_iff_witness :
  exists trace,
    patch_art_page_borders example_fromstring example_tostring
      "source.docx" "target.docx" example_fs = (trace, Ok true).
Proof.
  destruct (patch_returns_false_iff example_fromstring example_tostring
              "source.docx" "target.docx" example_fs
              [(mkZipInfo document_xml 0 8, [Byte.x01])]
              [(mkZipInfo document_xml 0 8, [Byte.x02]);
               (mkZipInfo "word/styles.xml" 0 8, [Byte.x07; Byte.x08])]
              [Byte.x01] [Byte.x02] one_break_document plain_document)
    as [trace [b [Hrun [_ [_ Htrue]]]]];
    try (vm_compute; reflexivity).
  exists trace. rewrite Hrun. rewrite Htrue; [reflexivity|].
  intros [Hnone | [Hbody _]].
  - vm_compute in Hnone. discriminate.
  - vm_compute in Hbody. discriminate.
Defined.

(** C8, an instance: the styles part of the target package reads the same
    after the rewrite. *)
Lemma rewrite_preserves_other_parts_witness :
  exists mid final zout,
    _set_pgBorders_in_all_sections example_fromstring example_tostring
      "target.docx" (elem pgBorders [elem (w "top") []]) example_fs
    = (mid ++ [final], Ok true) /\
    final !! "target.docx" = Some zout /\
    NameToInfo zout !! "word/styles.xml" = Some [Byte.x07; Byte.x08] /\
    Forall (fun st => st !! "target.docx" = example_fs !! "target.docx") mid.
Proof.
  destruct (rewrite_preserves_other_parts example_fromstring example_tostring
              "target.docx" (elem pgBorders [elem (w "top") []]) example_fs
              [(mkZipInfo document_xml 0 8, [Byte.x02]);
               (mkZipInfo "word/styles.xml" 0 8, [Byte.x07; Byte.x08])]
              [Byte.x02] plain_document)
    as [mid [final [Hrun [Hfinal [_ [Hother [_ [_ [_ [Hmid _]]]]]]]]]].
  - vm_compute; reflexivity.
  - vm_compute; reflexivity.
  - reflexivity.
  - left. vm_compute. discriminate.
  - exists mid, final. eexists. split; [exact Hrun|]. split; [exact Hfinal|].
    split; [|exact Hmid].
    rewrite Hother by discriminate. vm_compute; reflexivity.
Defined.

(** ** Elements as objects: what a copy shares *)

Lemma Obj_children_ind (P : Obj -> Prop) :
  (forall i t a tx tl cs, Forall P cs -> P (mkObj i t a tx tl cs)) ->
  forall o, P o.
Proof.
  intros step. fix IH 1. intros [i t a tx tl cs]. apply step.
  induction cs as [|c cs IHcs]; constructor; [apply IH | exact IHcs].
Qed.

Lemma elem_of_flat_map {A B} (f : A -> list B) l y :
  y ∈ flat_map f l <-> exists x, x ∈ l /\ y ∈ f x.
Proof.
  rewrite list_elem_of_In, in_flat_map. split; intros [x [Hx Hy]]; exists x.
  - by rewrite !list_elem_of_In.
  - by rewrite <- !list_elem_of_In.
Qed.

(** The copy stands for the same element, and every object of it sits at
    an address the allocator handed out during the call. *)
Lemma deepcopy_obj_spec elem : forall next,
  erase (deepcopy_obj elem next).1 = erase elem /\
  next < (deepcopy_obj elem next).2 /\
  (forall i, i ∈ oids (deepcopy_obj elem next).1 ->
             next <= i < (deepcopy_obj elem next).2) /\
  NoDup (oids (deepcopy_obj elem next).1).
Proof.
  induction elem as [i0 t a tx tl cs IH] using Obj_children_ind. intros next.
  cbn [deepcopy_obj].
  assert (Hcs : forall m,
    map erase (alloc_map deepcopy_obj cs m).1 = map erase cs /\
    m <= (alloc_map deepcopy_obj cs m).2 /\
    (forall i, i ∈ flat_map oids (alloc_map deepcopy_obj cs m).1 ->
               m <= i < (alloc_map deepcopy_obj cs m).2) /\
    NoDup (flat_map oids (alloc_map deepcopy_obj cs m).1)).
  { induction IH as [|c cs Hc _ IHcs]; intros m.
    - cbn. split; [done|]. split; [done|]. split; [|constructor].
      intros i Hi. by apply elem_of_nil in Hi.
    - cbn [alloc_map]. destruct (Hc m) as [He [Hlt [Hr Hnd]]].
      destruct (deepcopy_obj c m) as [c' m1]. cbn [fst snd] in *.
      destruct (IHcs m1) as [Hes [Hle [Hrs Hnds]]].
      destruct (alloc_map deepcopy_obj cs m1) as [cs' m2]. cbn [fst snd] in *.
      cbn [map flat_map]. split; [by rewrite He, Hes|]. split; [lia|].
      split.
      + intros i [Hi|Hi]%elem_of_app.
        * specialize (Hr i Hi). lia.
        * specialize (Hrs i Hi). lia.
      + apply NoDup_app. split; [done|]. split; [|done].
        intros i Hi Hi'. specialize (Hr i Hi). specialize (Hrs i Hi'). lia. }
  destruct (Hcs (S next)) as [Hes [Hle [Hrs Hnds]]].
  destruct (alloc_map deepcopy_obj cs (S next)) as [cs' next'].
  cbn [fst snd erase oids] in *. split; [by rewrite Hes|]. split; [lia|].
  split.
  - intros i [->|Hi]%elem_of_cons; [lia|]. specialize (Hrs i Hi). lia.
  - apply NoDup_cons. split; [|done]. intros Hi. specialize (Hrs _ Hi). lia.
Qed.

Lemma remove_first_obj_sublist path cs :
  flat_map oids (remove_first_obj path cs) `sublist_of` flat_map oids cs.
Proof.
  induction cs as [|c cs IH]; cbn; [done|].
  destruct (bool_decide _); cbn.
  - by apply sublist_inserts_l.
  - by apply sublist_app.
Qed.

Lemma remove_first_obj_erase path cs :
  map erase (remove_first_obj path cs) = remove_first path (map erase cs).
Proof.
  induction cs as [|c cs IH]; cbn; [done|].
  assert (Ht : tag (erase c) = otag c) by (by destruct c).
  rewrite Ht. destruct (bool_decide _); cbn; [done | by rewrite IH].
Qed.

Lemma find_obj_erase path cs :
  erase <$> List.find (fun c => bool_decide (otag c = path)) cs =
  List.find (fun e => bool_decide (tag e = path)) (map erase cs).
Proof.
  induction cs as [|c cs IH]; cbn; [done|].
  assert (Ht : tag (erase c) = otag c) by (by destruct c).
  rewrite Ht. by destruct (bool_decide _).
Qed.

Lemma list_insert_py_map {A B} (g : A -> B) i x l :
  map g (list_insert_py i x l) = list_insert_py i (g x) (map g l).
Proof.
  unfold list_insert_py. rewrite length_map, map_app. cbn [map].
  by rewrite <- !fmap_take, <- !fmap_drop.
Qed.

(** The children an object keeps once the existing fragment is dropped. *)
Lemma kept_children_sublist sectpr :
  flat_map oids
    match List.find (fun c => bool_decide (otag c = pgBorders)) (ochildren sectpr) with
    | Some _ => remove_first_obj pgBorders (ochildren sectpr)
    | None => ochildren sectpr
    end `sublist_of` flat_map oids (ochildren sectpr).
Proof. destruct (List.find _ _); [apply remove_first_obj_sublist | done]. Qed.

(** [insert_obj] refines [_insert_pgBorders_schema_order]; the objects of
    the result are those the section had, less the fragment removed, and
    the fresh objects of the copy. *)
Lemma insert_obj_spec pg sectpr next :
  (forall i, i ∈ oids sectpr -> i < next) ->
  NoDup (oids sectpr) ->
  erase (insert_obj pg sectpr next).1
  = _insert_pgBorders_schema_order (erase sectpr) (erase pg) /\
  next <= (insert_obj pg sectpr next).2 /\
  (forall i, i ∈ oids (insert_obj pg sectpr next).1 ->
             i ∈ oids sectpr \/ next <= i < (insert_obj pg sectpr next).2) /\
  NoDup (oids (insert_obj pg sectpr next).1).
Proof.
  intros Hold Hnd. unfold insert_obj.
  pose proof (kept_children_sublist sectpr) as Hsub.
  set (cs := match List.find _ (ochildren sectpr) with
             | Some _ => _ | None => _ end) in *.
  destruct (deepcopy_obj_spec pg next) as [He [Hlt [Hr Hndc]]].
  destruct (deepcopy_obj pg next) as [copy next']. cbn [fst snd] in *.
  destruct (list_insert_py_take_drop (insert_idx (map erase cs)) copy cs)
    as [k Hk].
  assert (Hperm : flat_map oids (list_insert_py (insert_idx (map erase cs)) copy cs)
                  ≡ₚ oids copy ++ flat_map oids cs).
  { rewrite Hk, List.flat_map_app. cbn [flat_map].
    rewrite Permutation_app_swap_app, <- List.flat_map_app.
    by rewrite take_drop. }
  destruct sectpr as [i0 t a tx tl cs0]. cbn [oid otag oattrib otext otail ochildren oids erase] in *.
  apply NoDup_cons in Hnd as [Hi0 Hnd0].
  split; [|split; [lia|split]].
  - unfold _insert_pgBorders_schema_order.
    rewrite remove_existing_eq, _deepcopy_eq.
    cbn [children set_children tag attrib text tail]. unfold set_children. cbn.
    f_equal. rewrite list_insert_py_map, He.
    assert (Hcs : map erase cs = remove_first pgBorders (map erase cs0)).
    { subst cs. pose proof (find_obj_erase pgBorders cs0) as Hf.
      destruct (List.find _ cs0).
      - apply remove_first_obj_erase.
      - symmetry. apply remove_first_absent. cbn in Hf.
        clear -Hf. induction (map erase cs0) as [|e l IH]; cbn in *; [done|].
        destruct (bool_decide (tag e = pgBorders)); [done | auto]. }
    by rewrite Hcs.
  - intros i [->|Hi]%elem_of_cons; [left; by left|].
    rewrite Hperm in Hi. apply elem_of_app in Hi as [Hi|Hi].
    + right. by apply Hr.
    + left. right. by eapply sublist_subseteq.
  - apply NoDup_cons. rewrite Hperm. split.
    + intros [Hi|Hi]%elem_of_app.
      * specialize (Hr _ Hi). specialize (Hold i0 ltac:(by left)). lia.
      * apply Hi0. by eapply sublist_subseteq.
    + apply NoDup_app. split; [done|].
      split; [|exact (sublist_NoDup _ _ Hnd0 Hsub)].
      intros i Hi Hi'. specialize (Hr _ Hi).
      assert (i < next) by (apply Hold; right; by eapply sublist_subseteq). lia.
Qed.

Lemma insert_all_spec pg sectprs : forall next,
  (forall i, i ∈ flat_map oids sectprs -> i < next) ->
  NoDup (flat_map oids sectprs) ->
  map erase (insert_all pg sectprs next).1
  = map (fun s => _insert_pgBorders_schema_order (erase s) (erase pg)) sectprs /\
  next <= (insert_all pg sectprs next).2 /\
  (forall i, i ∈ flat_map oids (insert_all pg sectprs next).1 ->
             i ∈ flat_map oids sectprs \/ next <= i < (insert_all pg sectprs next).2) /\
  NoDup (flat_map oids (insert_all pg sectprs next).1).
Proof.
  unfold insert_all.
  induction sectprs as [|s rest IH]; intros next Hold Hnd.
  - cbn. split; [done|]. split; [done|]. split; [|constructor].
    intros i Hi. by apply elem_of_nil in Hi.
  - cbn [flat_map] in Hold, Hnd. apply NoDup_app in Hnd as [Hnds [Hdisj Hndr]].
    cbn [alloc_map].
    destruct (insert_obj_spec pg s next) as [He [Hle [Hin Hnd']]].
    { intros i Hi. apply Hold. apply elem_of_app. by left. }
    { done. }
    destruct (insert_obj pg s next) as [s' n1]. cbn [fst snd] in *.
    destruct (IH n1) as [Hes [Hles [Hins Hnds']]].
    { intros i Hi. assert (i < next); [|lia].
      apply Hold. apply elem_of_app. by right. }
    { done. }
    destruct (alloc_map (insert_obj pg) rest n1) as [rest' n2]. cbn [fst snd] in *.
    cbn [map flat_map]. split; [by rewrite He, Hes|]. split; [lia|]. split.
    + intros i [Hi|Hi]%elem_of_app.
      * destruct (Hin i Hi) as [?|?]; [left; apply elem_of_app; by left | right; lia].
      * destruct (Hins i Hi) as [?|?]; [left; apply elem_of_app; by right | right; lia].
    + apply NoDup_app. split; [done|]. split; [|done].
      intros i Hi Hi'.
      destruct (Hin i Hi) as [Hs|Hs]; destruct (Hins i Hi') as [Hr|Hr].
      * by apply (Hdisj i).
      * assert (i < next); [|lia]. apply Hold. apply elem_of_app. by left.
      * assert (i < next); [|lia]. apply Hold. apply elem_of_app. by right.
      * lia.
Qed.

(** C10.  [_deepcopy] returns an element equal to the original in tag,
    attributes, text, tail and, recursively, children, made of new objects
    only: no object of the copy is an object of the original, and no object
    occurs twice in the copy.  Consequently, after the patcher's loop over
    distinct section-properties elements that share nothing with the
    extracted fragment, no object occurs in two patched sections or twice
    in one, and none is an object of the extracted fragment, while each
    section is the one [_insert_pgBorders_schema_order] describes.  The
    hypotheses are the allocator's: every live object sits below the next
    address. *)
Theorem deepcopy_independent (elem : Obj) (next : nat) :
  (forall i, i ∈ oids elem -> i < next) ->
  let new := (deepcopy_obj elem next).1 in
  erase new = _deepcopy (erase elem) /\
  erase new = erase elem /\
  (forall i, i ∈ oids new -> i ∉ oids elem) /\
  NoDup (oids new) /\
  forall sectprs,
    (forall i, i ∈ flat_map oids sectprs -> i < next) ->
    NoDup (flat_map oids sectprs) ->
    (forall i, i ∈ oids elem -> i ∉ flat_map oids sectprs) ->
    let patched := (insert_all elem sectprs next).1 in
    map erase patched
    = map (fun s => _insert_pgBorders_schema_order (erase s) (erase elem)) sectprs /\
    NoDup (flat_map oids patched) /\
    (forall i, i ∈ flat_map oids patched -> i ∉ oids elem).
Proof.
  intros Hold new. subst new.
  destruct (deepcopy_obj_spec elem next) as [He [_ [Hr Hnd]]].
  split; [by rewrite _deepcopy_eq|]. split; [done|]. split; [|split; [done|]].
  - intros i Hi Hi'. specialize (Hr i Hi). specialize (Hold i Hi'). lia.
  - intros sectprs Hsold Hsnd Hsep patched. subst patched.
    destruct (insert_all_spec elem sectprs next Hsold Hsnd) as [Hes [_ [Hin Hnds]]].
    split; [done|]. split; [done|].
    intros i Hi Hi'. destruct (Hin i Hi) as [Hs|Hs].
    + by apply (Hsep i).
    + specialize (Hold i Hi'). lia.
Qed.

(** C10, an instance: a fragment with one border at addresses 0 and 1, two
    section-properties elements at addresses 2 to 4, the allocator at 10. *)
Lemma deepcopy_independent_witness :
  NoDup (flat_map oids
    (insert_all
       (mkObj 0 pgBorders ∅ None None [mkObj 1 (w "top") ∅ None None []])
       [mkObj 2 (w "sectPr") ∅ None None [mkObj 3 (w "pgSz") ∅ None None []];
        mkObj 4 (w "sectPr") ∅ None None []] 10).1).
Proof.
  destruct (deepcopy_independent
    (mkObj 0 pgBorders ∅ None None [mkObj 1 (w "top") ∅ None None []]) 10)
    as [_ [_ [_ [_ Hloop]]]].
  - intros i Hi. cbn in Hi.
    repeat (apply elem_of_cons in Hi as [->|Hi]; [lia|]).
    by apply elem_of_nil in Hi.
  - destruct (Hloop
      [mkObj 2 (w "sectPr") ∅ None None [mkObj 3 (w "pgSz") ∅ None None []];
       mkObj 4 (w "sectPr") ∅ None None []]) as [_ [Hnd _]].
    + intros i Hi. cbn in Hi.
      repeat (apply elem_of_cons in Hi as [->|Hi]; [lia|]).
      by apply elem_of_nil in Hi.
    + cbn. repeat (apply NoDup_cons; split;
        [rewrite ?elem_of_cons, elem_of_nil; lia|]). constructor.
    + intros i Hi Hi'. cbn in Hi, Hi'.
      repeat (apply elem_of_cons in Hi as [->|Hi];
        [repeat (apply elem_of_cons in Hi' as [Hi'|Hi']; [lia|]);
         by apply elem_of_nil in Hi'|]).
      by apply elem_of_nil in Hi.
    + exact Hnd.
Defined.

(** ** The pipeline: which calls an action makes *)

Section PipelineFacts.

Variable H : Type.
Variable com : forall R, Call R -> H -> FS -> H * FS * Result R.
Variable abspath_expanduser : string -> string.
Variable dirname : string -> string.
Variable gettempdir : string.
Variable path_join : string -> string -> string.
Variable fromstring : bytes -> option Element.
Variable tostring : Element -> bytes.

Lemma only_ret {A} Q (a : A) : only Q (ret (H:=H) a).
Proof. intros w. exists []. by rewrite app_nil_r. Qed.

Lemma only_raise {A} Q e : only Q (raise (H:=H) (A:=A) e).
Proof. intros w. exists []. by rewrite app_nil_r. Qed.

Lemma only_log Q msg : only Q (log (H:=H) msg).
Proof. intros w. exists []. by rewrite app_nil_r. Qed.

Lemma only_os_remove Q path : only Q (os_remove (H:=H) path).
Proof.
  intros w. exists []. unfold os_remove.
  destruct (files w !! path); by rewrite app_nil_r.
Qed.

Lemma only_shutil_copy2 Q src dst : only Q (shutil_copy2 (H:=H) src dst).
Proof.
  intros w. exists []. unfold shutil_copy2.
  destruct (files w !! src); by rewrite app_nil_r.
Qed.

Lemma only_lift_fs {A} Q (m : FSAction A) : only Q (lift_fs (H:=H) m).
Proof.
  intros w. exists []. unfold lift_fs.
  destruct (m (files w)); by rewrite app_nil_r.
Qed.

Lemma only_call {R} (Q : Event -> bool) (c : Call R) :
  (forall b, Q (Called c b) = true) -> only Q (call com c).
Proof.
  intros HQ w. unfold call.
  destruct (com R c (word w) (files w)) as [[h fs] r]. cbn.
  exists [Called c (is_ok r)]. cbn. by rewrite HQ.
Qed.

Lemma only_bind {A B} Q (m : M H A) (f : A -> M H B) :
  only Q m -> (forall a, only Q (f a)) -> only Q (bind m f).
Proof.
  intros Hm Hf w. unfold bind. destruct (Hm w) as [e1 [H1 Hq1]].
  destruct (m w) as [w1 [a|e]]; cbn in *.
  - destruct (Hf a w1) as [e2 [H2 Hq2]]. exists (e1 ++ e2).
    rewrite H2, H1, app_assoc, forallb_app, Hq1, Hq2. done.
  - by exists e1.
Qed.

Lemma only_try_except {A} Q (m handler : M H A) :
  only Q m -> only Q handler -> only Q (try_except m handler).
Proof.
  intros Hm Hh w. unfold try_except. destruct (Hm w) as [e1 [H1 Hq1]].
  destruct (m w) as [w1 [a|e]]; cbn in *.
  - by exists e1.
  - destruct (Hh w1) as [e2 [H2 Hq2]]. exists (e1 ++ e2).
    rewrite H2, H1, app_assoc, forallb_app, Hq1, Hq2. done.
Qed.

Lemma only_try_pass Q (m : M H unit) : only Q m -> only Q (try_pass m).
Proof. intros Hm. apply only_try_except; [done | apply only_ret]. Qed.

Lemma only_try_finally {A} Q (m : M H A) cleanup :
  only Q m -> only Q cleanup -> only Q (try_finally m cleanup).
Proof.
  intros Hm Hc w. unfold try_finally. destruct (Hm w) as [e1 [H1 Hq1]].
  destruct (m w) as [w1 r]. cbn in *.
  destruct (Hc w1) as [e2 [H2 Hq2]]. exists (e1 ++ e2).
  destruct (cleanup w1) as [w2 [u|e]]; cbn in *;
    rewrite H2, H1, app_assoc, forallb_app, Hq1, Hq2; done.
Qed.

Lemma only_for_each {A} Q (l : list A) (body : A -> M H unit) :
  (forall x, only Q (body x)) -> only Q (for_each l body).
Proof.
  intros Hb. induction l as [|x l IH]; cbn [for_each].
  - apply only_ret.
  - apply only_bind; [apply Hb | intros _; exact IH].
Qed.

Lemma only_weaken {A} (Q Q' : Event -> bool) (m : M H A) :
  (forall ev, Q ev = true -> Q' ev = true) -> only Q m -> only Q' m.
Proof.
  intros HQ Hm w. destruct (Hm w) as [evs [Hc Hq]]. exists evs. split; [done|].
  rewrite forallb_forall in Hq |- *. auto.
Qed.

(** [save_docx] saves in format 12: it makes no call of the template
    fallback, and none of the organizer. *)
Lemma only_save_docx doc path :
  only (fun ev => not_organizer ev && negb (fallback_call ev))
    (save_docx com dirname doc path).
Proof.
  unfold save_docx. apply only_bind.
  - destruct (bool_decide _); [|apply only_ret].
    apply only_bind; [by apply only_call|].
    intros isdir. destruct (negb isdir); [|apply only_ret].
    by apply only_call.
  - intros _. repeat apply only_try_except; by apply only_call.
Qed.

Lemma only_any {A} Q (m : M H A) : only Q m -> only any_call m.
Proof. apply only_weaken. done. Qed.

Lemma starts_with_call {R} (c : Call R) : starts_with c (call com c).
Proof.
  intros w. unfold call. destruct (com R c (word w) (files w)) as [[h fs] r].
  by exists (is_ok r), [].
Qed.

Lemma starts_with_bind {A B R} (c : Call R) (m : M H A) (f : A -> M H B) :
  starts_with c m -> (forall a, only any_call (f a)) -> starts_with c (bind m f).
Proof.
  intros Hm Hf w. unfold bind. destruct (Hm w) as [b [rest Hc]].
  destruct (m w) as [w1 [a|e]]; cbn in *.
  - destruct (Hf a w1) as [e2 [H2 _]]. exists b, (rest ++ e2).
    rewrite H2, Hc, <- app_assoc. done.
  - by exists b, rest.
Qed.

Lemma starts_with_after_log {A R} (c : Call R) msg (k : M H A) :
  starts_with c k -> starts_with c (bind (log msg) (fun _ => k)).
Proof. intros Hk w. unfold bind, log. cbn. apply (Hk (mkWorld _ _ _ _)). Qed.

Lemma starts_with_try_except {A R} (c : Call R) (m handler : M H A) :
  starts_with c m -> only any_call handler -> starts_with c (try_except m handler).
Proof.
  intros Hm Hh w. unfold try_except. destruct (Hm w) as [b [rest Hc]].
  destruct (m w) as [w1 [a|e]]; cbn in *.
  - by exists b, rest.
  - destruct (Hh w1) as [e2 [H2 _]]. exists b, (rest ++ e2).
    rewrite H2, Hc, <- app_assoc. done.
Qed.

Lemma starts_with_try_finally {A R} (c : Call R) (m : M H A) cleanup :
  starts_with c m -> only any_call cleanup -> starts_with c (try_finally m cleanup).
Proof.
  intros Hm Hc w. unfold try_finally. destruct (Hm w) as [b [rest Hw]].
  destruct (m w) as [w1 r]. cbn in *.
  destruct (Hc w1) as [e2 [H2 _]]. exists b, (rest ++ e2).
  destruct (cleanup w1) as [w2 [u|e]]; cbn in *; rewrite H2, Hw, <- app_assoc; done.
Qed.

(** [style_name] only reads attributes, and never raises. *)
Lemma style_name_spec st attrs : forall name w,
  exists evs n,
    style_name com st attrs name w = ((style_name com st attrs name w).1, Ok n) /\
    calls (style_name com st attrs name w).1 = calls w ++ evs /\
    forallb neutral_call evs = true.
Proof.
  induction attrs as [|attr rest IH]; intros name w; cbn [style_name].
  - exists [], name. cbn. by rewrite app_nil_r.
  - unfold call. destruct (com string (GetAttr st attr) (word w) (files w))
      as [[h fs] [n|e]]; cbn.
    + destruct (bool_decide (n <> "")).
      * exists [Called (GetAttr st attr) true], (Some n). done.
      * destruct (IH (Some n) (mkWorld fs h (calls w ++ [Called (GetAttr st attr) true]) (logged w)))
          as [evs [n' [Hr [Hc Hq]]]].
        exists (Called (GetAttr st attr) true :: evs), n'.
        split; [exact Hr|]. cbn in Hc. rewrite Hc, <- app_assoc. by split.
    + destruct (IH name (mkWorld fs h (calls w ++ [Called (GetAttr st attr) false]) (logged w)))
        as [evs [n' [Hr [Hc Hq]]]].
      exists (Called (GetAttr st attr) false :: evs), n'.
      split; [exact Hr|]. cbn in Hc. rewrite Hc, <- app_assoc. by split.
Qed.

Lemma organizer_successes_app e1 e2 :
  organizer_successes (e1 ++ e2) = (organizer_successes e1 + organizer_successes e2)%Z.
Proof. unfold organizer_successes. rewrite List.filter_app, length_app. lia. Qed.

Lemma organizer_successes_nonneg evs : (0 <= organizer_successes evs)%Z.
Proof. unfold organizer_successes. lia. Qed.

Lemma not_organizer_successes evs :
  forallb not_organizer evs = true -> organizer_successes evs = 0%Z.
Proof.
  unfold organizer_successes. induction evs as [|ev evs IH]; cbn; [done|].
  intros [Hev Hevs]%andb_true_iff. unfold not_organizer in Hev.
  apply andb_true_iff in Hev as [Hev _]. apply negb_true_iff in Hev.
  rewrite Hev. auto.
Qed.

Lemma not_organizer_unlisted evs :
  forallb not_organizer evs = true -> existsb styles_listed evs = false.
Proof.
  induction evs as [|ev evs IH]; cbn; [done|].
  intros [Hev Hevs]%andb_true_iff. unfold not_organizer in Hev.
  apply andb_true_iff in Hev as [_ Hev]. apply negb_true_iff in Hev.
  rewrite Hev. auto.
Qed.

Lemma no_fallback_call evs :
  forallb (fun ev => negb (fallback_call ev)) evs = true ->
  existsb fallback_call evs = false.
Proof.
  induction evs as [|ev evs IH]; cbn; [done|].
  intros [Hev Hevs]%andb_true_iff. apply negb_true_iff in Hev.
  rewrite Hev. auto.
Qed.

Lemma neutral_not_organizer evs :
  forallb neutral_call evs = true -> forallb not_organizer evs = true.
Proof.
  rewrite !forallb_forall. intros Hn ev Hev. specialize (Hn ev Hev).
  unfold neutral_call in Hn. by apply andb_true_iff in Hn as [? _].
Qed.

Lemma neutral_no_fallback evs :
  forallb neutral_call evs = true ->
  forallb (fun ev => negb (fallback_call ev)) evs = true.
Proof.
  rewrite !forallb_forall. intros Hn ev Hev. specialize (Hn ev Hev).
  unfold neutral_call in Hn. by apply andb_true_iff in Hn as [_ ?].
Qed.

(** The loop over the styles never raises; it returns the count it was
    given plus the number of named-style copies that returned. *)
Lemma organizer_loop_spec src dst styles : forall moved w,
  exists w' evs moved',
    organizer_loop com src dst styles moved w = (w', Ok moved') /\
    calls w' = calls w ++ evs /\
    moved' = (moved + organizer_successes evs)%Z /\
    forallb (fun ev => negb (fallback_call ev)) evs = true /\
    existsb styles_listed evs = false.
Proof.
  induction styles as [|st rest IH]; intros moved w.
  - exists w, [], moved. cbn. rewrite app_nil_r.
    unfold organizer_successes. cbn. repeat split; try done. lia.
  - assert (Hcont : forall w1 pre m1,
      calls w1 = calls w ++ pre ->
      m1 = (moved + organizer_successes pre)%Z ->
      forallb (fun ev => negb (fallback_call ev)) pre = true ->
      existsb styles_listed pre = false ->
      exists w' evs moved',
        organizer_loop com src dst rest m1 w1 = (w', Ok moved') /\
        calls w' = calls w ++ evs /\
        moved' = (moved + organizer_successes evs)%Z /\
        forallb (fun ev => negb (fallback_call ev)) evs = true /\
        existsb styles_listed evs = false).
    { intros w1 pre m1 Hc1 Hm1 Hf1 Hl1.
      destruct (IH m1 w1) as [w' [evs [moved' [Hr [Hc [Hm [Hf Hl]]]]]]].
      exists w', (pre ++ evs), moved'. split; [exact Hr|].
      rewrite Hc, Hc1, <- app_assoc, organizer_successes_app, forallb_app,
        existsb_app, Hf1, Hf, Hl1, Hl.
      repeat split; try done. lia. }
    cbn [organizer_loop]. unfold bind at 1.
    destruct (style_name_spec st ["NameLocal"; "Name"] None w)
      as [e1 [n [Hr1 [Hc1 Hq1]]]].
    rewrite Hr1. set (w1 := (style_name com st ["NameLocal"; "Name"] None w).1) in *.
    pose proof (not_organizer_successes _ (neutral_not_organizer _ Hq1)) as Hs1.
    pose proof (not_organizer_unlisted _ (neutral_not_organizer _ Hq1)) as Hl1.
    pose proof (neutral_no_fallback _ Hq1) as Hf1.
    destruct n as [name|]; [|apply (Hcont w1 e1); [done|lia|done|done]].
    destruct (bool_decide (name <> ""));
      [|apply (Hcont w1 e1); [done|lia|done|done]].
    unfold bind, call.
    destruct (com string (FullName src) (word w1) (files w1)) as [[h fs] [source|e]];
      cbn [fst snd is_ok calls word files].
    + destruct (com unit (OrganizerCopy source dst name 3) h fs) as [[h2 fs2] [u|e]];
        cbn [is_ok].
      * apply (Hcont _ (e1 ++ [Called (FullName src) true;
                               Called (OrganizerCopy source dst name 3) true])).
        -- cbn [calls]. rewrite Hc1, <- !app_assoc. done.
        -- rewrite organizer_successes_app, Hs1. unfold organizer_successes. cbn. lia.
        -- by rewrite forallb_app, Hf1.
        -- by rewrite existsb_app, Hl1.
      * apply (Hcont _ (e1 ++ [Called (FullName src) true;
                               Called (OrganizerCopy source dst name 3) false])).
        -- cbn [calls]. rewrite Hc1, <- !app_assoc. done.
        -- rewrite organizer_successes_app, Hs1. unfold organizer_successes. cbn. lia.
        -- by rewrite forallb_app, Hf1.
        -- by rewrite existsb_app, Hl1.
    + apply (Hcont _ (e1 ++ [Called (FullName src) false])).
      * cbn [calls]. rewrite Hc1, <- !app_assoc. done.
      * rewrite organizer_successes_app, Hs1. unfold organizer_successes. cbn. lia.
      * by rewrite forallb_app, Hf1.
      * by rewrite existsb_app, Hl1.
Qed.

(** [try_organizer_copy_all_styles] returns the number of named-style
    copies that returned, once the styles are enumerated; it raises only
    when the enumeration does, before any copy. *)
Lemma try_organizer_copy_all_styles_spec src dst w :
  exists w' evs r,
    try_organizer_copy_all_styles com src dst w = (w', r) /\
    calls w' = calls w ++ evs /\
    forallb (fun ev => negb (fallback_call ev)) evs = true /\
    ((exists moved, r = Ok moved /\ moved = organizer_successes evs /\
                    existsb styles_listed evs = true) \/
     (exists e, r = Raise e /\ organizer_successes evs = 0%Z /\
                existsb styles_listed evs = false)).
Proof.
  unfold try_organizer_copy_all_styles, bind, call.
  destruct (com unit (Application src) (word w) (files w)) as [[h fs] [u|e]];
    cbn [fst snd is_ok calls word files].
  - destruct (com (list Style) (Styles src) h fs) as [[h2 fs2] [styles|e]];
      cbn [is_ok].
    + destruct (organizer_loop_spec src dst styles 0
                  (mkWorld fs2 h2 ((calls w ++ [Called (Application src) true]) ++
                                   [Called (Styles src) true]) (logged w)))
        as [w' [evs [moved [Hr [Hc [Hm [Hf Hl]]]]]]].
      exists w', ([Called (Application src) true; Called (Styles src) true] ++ evs),
        (Ok moved).
      split; [exact Hr|]. cbn [calls] in Hc. rewrite Hc, <- !app_assoc.
      split; [done|]. split; [by rewrite forallb_app, Hf|].
      left. exists moved. split; [done|]. split; [|done].
      rewrite organizer_successes_app. unfold organizer_successes at 1. cbn. lia.
    + eexists _, [Called (Application src) true; Called (Styles src) false], _.
      split; [done|]. cbn [calls]. rewrite <- app_assoc. split; [done|].
      split; [done|]. right. by exists e.
  - eexists _, [Called (Application src) false], _.
    split; [done|]. split; [done|]. split; [done|]. right. by exists e.
Qed.

(** The template fallback starts by saving the snapshot as a template, and
    makes no call of the organizer. *)
Lemma copy_styles_via_template_calls work src :
  starts_with (SaveCopyAs src (tmp_dotx gettempdir path_join) 16)
    (copy_styles_via_template com dirname gettempdir path_join work src) /\
  only not_organizer
    (copy_styles_via_template com dirname gettempdir path_join work src).
Proof.
  unfold copy_styles_via_template. split.
  - apply starts_with_try_finally.
    + apply starts_with_bind.
      * apply starts_with_try_except; [apply starts_with_call|].
        eapply only_any, only_save_docx.
      * intros _. by apply only_call.
    + apply only_try_pass, only_os_remove.
  - apply only_try_finally.
    + apply only_bind.
      * apply only_try_except; [by apply only_call|].
        eapply only_weaken; [|apply only_save_docx].
        intros ev Hev. by apply andb_true_iff in Hev as [? _].
      * intros _. by apply only_call.
    + apply only_try_pass, only_os_remove.
Qed.

Lemma only_try_organizer_copy_all_styles src dst :
  only any_call (try_organizer_copy_all_styles com src dst).
Proof.
  intros w. destruct (try_organizer_copy_all_styles_spec src dst w)
    as [w' [evs [r [Hr [Hc _]]]]].
  exists evs. rewrite Hr. split; [exact Hc|]. by apply forallb_forall.
Qed.

(** Any call will do: the structure of an action is followed down to its
    calls. *)
Ltac only_steps :=
  repeat match goal with
  | |- only _ (ret _) => apply only_ret
  | |- only _ (log _) => apply only_log
  | |- only _ (os_remove _) => apply only_os_remove
  | |- only _ (shutil_copy2 _ _) => apply only_shutil_copy2
  | |- only _ (lift_fs _) => apply only_lift_fs
  | |- only _ (call _ _) => apply only_call; intros; reflexivity
  | |- only _ (save_docx _ _ _ _) => eapply only_any; apply only_save_docx
  | |- only _ (try_organizer_copy_all_styles _ _ _) =>
      apply only_try_organizer_copy_all_styles
  | |- only _ (copy_styles_via_template _ _ _ _ _ _) =>
      eapply only_any; apply copy_styles_via_template_calls
  | |- only _ (try_pass _) => apply only_try_pass
  | |- only _ (try_except _ _) => apply only_try_except
  | |- only _ (try_finally _ _) => apply only_try_finally
  | |- only _ (for_each _ _) => apply only_for_each
  | |- only _ (bind _ _) => apply only_bind
  | |- only _ (if ?b then _ else _) => destruct b
  | |- only _ (let x := _ in _) => cbv zeta
  | |- forall _, _ => intro
  end.

(** C6.  In the style block of [transfer_layout], once the source styles
    are enumerated the template fallback runs if and only if no named-style
    copy returned; as soon as one named-style copy returned, no call of the
    fallback is made.  (When the enumeration itself raises, no copy was
    attempted and the block raises before the fallback.) *)
Theorem fallback_iff_no_style_copied (src work : Doc) (output_docx : string)
    (w : World H) :
  exists evs,
    calls (copy_styles com dirname gettempdir path_join src work output_docx w).1
    = calls w ++ evs /\
    ((0 < organizer_successes evs)%Z -> existsb fallback_call evs = false) /\
    (existsb styles_listed evs = true ->
     (existsb fallback_call evs = true <-> organizer_successes evs = 0%Z)) /\
    (existsb styles_listed evs = false -> existsb fallback_call evs = false).
Proof.
  unfold copy_styles. unfold bind at 1. unfold log at 1. cbn [fst snd].
  set (w0 := mkWorld (files w) (word w) (calls w) _).
  unfold bind at 1.
  destruct (try_organizer_copy_all_styles_spec src output_docx w0)
    as [w1 [e1 [r [Hr [Hc1 [Hf1 Hcase]]]]]].
  rewrite Hr. change (calls w0) with (calls w) in Hc1.
  apply no_fallback_call in Hf1.
  destruct Hcase as [[moved [-> [Hm Hl]]] | [e [-> [Hs Hl]]]].
  - unfold bind at 1. unfold log at 1. cbn [fst snd].
    destruct (Z.eqb_spec moved 0) as [Hz|Hnz].
    + set (w2 := mkWorld (files w1) (word w1) (calls w1) _).
      destruct (copy_styles_via_template_calls work src) as [Hstart Honly].
      unfold bind at 1. unfold log at 1. cbn [fst snd].
      set (w3 := mkWorld (files w2) (word w2) (calls w2) _).
      destruct (Hstart w3) as [b [rest Hc3]]. destruct (Honly w3) as [e3 [Hc3' Hq3]].
      assert (He3 : e3 = Called (SaveCopyAs src (tmp_dotx gettempdir path_join) 16) b :: rest)
        by (rewrite Hc3 in Hc3'; by apply app_inv_head in Hc3').
      exists (e1 ++ e3). split.
      * unfold bind.
        destruct (copy_styles_via_template com dirname gettempdir path_join work src w3)
          as [w4 [u|e]]; cbn [fst snd] in *; unfold log; cbn [fst snd calls];
          rewrite Hc3'; change (calls w3) with (calls w1);
          by rewrite Hc1, app_assoc.
      * rewrite organizer_successes_app, !existsb_app, Hf1.
        rewrite (not_organizer_successes e3 Hq3).
        assert (Hfb : existsb fallback_call e3 = true) by (by rewrite He3).
        rewrite Hfb. cbn [orb]. split; [lia|]. split; [|by rewrite Hl].
        intros _. split; [lia | done].
    + exists e1. cbn [ret fst snd]. split; [done|]. rewrite Hf1.
      split; [done|]. split; [|done]. intros _. split; [done | lia].
  - exists e1. cbn [fst snd]. split; [done|]. rewrite Hf1. split; [done|].
    split; [by rewrite Hl | done].
Qed.

(** C7.  Whatever the host does and however [copy_styles_via_template]
    ends (it returns when the template was applied, it raises when saving
    the snapshot or applying it raised), the snapshot file is not on the
    file system afterwards. *)
Theorem snapshot_removed_on_every_exit (work src : Doc) (w : World H) :
  files (copy_styles_via_template com dirname gettempdir path_join work src w).1
    !! tmp_dotx gettempdir path_join = None.
Proof.
  unfold copy_styles_via_template, try_finally.
  destruct (bind _ _ w) as [w1 r]. unfold try_pass, try_except, os_remove.
  destruct (files w1 !! tmp_dotx gettempdir path_join) eqn:Hf; cbn.
  - destruct r; cbn; apply lookup_delete_eq.
  - by destruct r.
Qed.

(** C9.  When the source path or the target path does not name an existing
    file, [transfer_layout] raises [FileNotFoundError] and the world is the
    one it started in: no call was made, nothing was logged, no file was
    touched.  When both exist the pipeline goes on to the host, starting
    with [CoInitialize]. *)
Theorem transfer_layout_missing_input (source_docx target_docx output_docx : string)
    (visible section_map : bool) (w : World H) :
  let run :=
    transfer_layout com abspath_expanduser dirname gettempdir path_join
      fromstring tostring source_docx target_docx output_docx visible section_map w in
  (isfile (abspath_expanduser source_docx) w = false \/
   isfile (abspath_expanduser target_docx) w = false ->
   run.1 = w /\ exists msg, run.2 = Raise (FileNotFoundError msg)) /\
  (isfile (abspath_expanduser source_docx) w = true ->
   isfile (abspath_expanduser target_docx) w = true ->
   exists returned rest, calls run.1 = calls w ++ Called CoInitialize returned :: rest).
Proof.
  intros run. subst run. unfold transfer_layout. split.
  - intros Hmissing.
    destruct (isfile (abspath_expanduser source_docx) w) eqn:Hs; cbn [negb].
    + destruct Hmissing as [?|Ht]; [done|]. rewrite Ht. cbn. eauto.
    + cbn. eauto.
  - intros -> ->. cbn [negb].
    do 3 apply starts_with_after_log.
    apply starts_with_bind; [apply starts_with_call|]. intros _.
    unfold copy_styles, copy_layout, copy_section. only_steps.
Qed.

(** C5.  For a target section index [i] the layout loop visits
    ([1 <= i <= tgt_count]), the source section is [i] in index-mapped mode
    when [i] does not exceed the source's section count, the first section
    when it does, and the first section in broadcast mode; it is the
    section [copy_section] passes to the page-setup copy. *)
Theorem layout_source_section (section_map : bool) (src_count tgt_count i : Z) :
  i ∈ seqZ 1 tgt_count ->
  let s_idx := select_source_section section_map src_count i in
  (1 <= i <= tgt_count)%Z /\
  (section_map = true -> (i <= src_count)%Z -> s_idx = i) /\
  (section_map = true -> (src_count < i)%Z -> s_idx = 1%Z) /\
  (section_map = false -> s_idx = 1%Z) /\
  forall src work,
    starts_with (CopyPageSetup src s_idx work i)
      (copy_section com src work section_map src_count i).
Proof.
  intros Hi s_idx. subst s_idx. apply elem_of_seqZ in Hi.
  unfold select_source_section. split; [lia|].
  split; [|split; [|split]].
  - intros -> Hle. cbn. by destruct (Z.leb_spec i src_count); [|lia].
  - intros -> Hlt. cbn. by destruct (Z.leb_spec i src_count); [lia|].
  - by intros ->.
  - intros src work. unfold copy_section. apply starts_with_after_log.
    apply starts_with_bind; [apply starts_with_call|]. intros _.
    apply only_bind; [by apply only_call|]. intros _. by apply only_call.
Qed.

End PipelineFacts.

(** C5, an instance: a source with two sections; target section 2 copies
    from source section 2 and target section 3 from source section 1. *)
Lemma layout_source_section_witness :
  select_source_section true 2 2 = 2%Z /\ select_source_section true 2 3 = 1%Z.
Proof.
  split.
  - destruct (layout_source_section unit (example_com false) true 2 3 2)
      as [_ [Hmapped _]]; [apply elem_of_seqZ; lia|].
    apply Hmapped; [reflexivity | lia].
  - destruct (layout_source_section unit (example_com false) true 2 3 3)
      as [_ [_ [Hfirst _]]]; [apply elem_of_seqZ; lia|].
    apply Hfirst; [reflexivity | lia].
Defined.

(** C9, an instance: the source path names no file. *)
Lemma transfer_layout_missing_input_witness :
  exists msg,
    (transfer_layout (example_com false) id id "tmp"
       (fun a b => a +:+ "/" +:+ b) example_fromstring example_tostring
       "missing.docx" "target.docx" "out.docx" false true example_world).2
    = Raise (FileNotFoundError msg).
Proof.
  destruct (transfer_layout_missing_input unit (example_com false) id id "tmp"
              (fun a b => a +:+ "/" +:+ b) example_fromstring example_tostring
              "missing.docx" "target.docx" "out.docx" false true example_world)
    as [Hmissing _].
  apply Hmissing. left. vm_compute. reflexivity.
Defined.

(** C6, an instance: on a host whose named-style copy always raises, the
    styles are enumerated, no copy returns, and the fallback runs. *)
Lemma fallback_iff_no_style_copied_witness :
  existsb fallback_call
    (calls (copy_styles (example_com true) id "tmp" (fun a b => a +:+ "/" +:+ b)
              0 0 "out.docx" example_world).1) = true.
Proof.
  destruct (fallback_iff_no_style_copied unit (example_com true) id "tmp"
              (fun a b => a +:+ "/" +:+ b) 0 0 "out.docx" example_world)
    as [evs [Hc [_ [Hiff _]]]].
  cbn [calls example_world app] in Hc. rewrite Hc.
  apply Hiff; rewrite <- Hc; vm_compute; reflexivity.
Defined.

(** * Further properties of the patcher *)

Lemma insert_idx_after_bound cs j :
  groups_in_schema_order cs -> after_at cs j ->
  (Z.of_nat j + 1 <= insert_idx cs)%Z.
Proof.
  intros Hord Hj. unfold insert_idx.
  pose proof (scan_after_covers cs 0 (-1) j ltac:(lia) Hj) as Ha.
  pose proof (after_at_lt cs j Hj) as Hlen.
  destruct (scan_before_found cs 0 (Z.of_nat (length cs)))
    as [[-> _] | [k [Hk ->]]]; [lia|].
  pose proof (Hord j k Hj Hk). lia.
Qed.

Lemma insert_idx_before_bound cs j :
  before_at cs j -> (insert_idx cs <= Z.of_nat j)%Z.
Proof.
  intros Hj. unfold insert_idx.
  pose proof (scan_before_first cs 0 (Z.of_nat (length cs)) j Hj). lia.
Qed.

(** The children of a patched section, position by position. *)
Lemma lookup_inserted {A} (l : list A) (x : A) n j :
  n <= length l ->
  (take n l ++ x :: drop n l) !! j =
  if decide (j < n) then l !! j
  else if decide (j = n) then Some x else l !! (j - 1).
Proof.
  intros Hn. destruct (decide (j < n)) as [Hlt|Hge].
  - rewrite lookup_app_l by (rewrite length_take; lia).
    by rewrite lookup_take_lt.
  - rewrite lookup_app_r by (rewrite length_take; lia).
    rewrite length_take, Nat.min_l by lia.
    destruct (decide (j = n)) as [->|Hne].
    + by rewrite Nat.sub_diag.
    + rewrite lookup_cons_ne_0 by lia. rewrite lookup_drop. f_equal. lia.
Qed.

(** X1.  When the children of a section-properties element (its old
    fragment apart) respect the schema order, the fragment inserted by
    [_insert_pgBorders_schema_order] stands at the computed index, behind
    every child of the "after" group and before every child of the "before"
    group: the result respects the schema order too. *)
Theorem inserted_fragment_in_schema_position (sectpr pg : Element) :
  tag pg = pgBorders ->
  groups_in_schema_order (children (remove_existing sectpr)) ->
  let out := children (_insert_pgBorders_schema_order sectpr pg) in
  let idx := Z.to_nat (insertion_index sectpr) in
  out !! idx = Some pg /\
  (forall j, after_at out j -> j < idx) /\
  (forall j, before_at out j -> idx < j).
Proof.
  intros Hpg Hord out idx. subst out idx.
  destruct (_insert_pgBorders_schema_order_eq sectpr pg) as [n [-> Hn]].
  rewrite <- Hn, Nat2Z.id. cbn [children set_children].
  rewrite remove_existing_children in Hord.
  unfold insertion_index in Hn. rewrite remove_existing_children in Hn.
  set (cs := remove_first pgBorders (children sectpr)) in *.
  assert (Hlen : n <= length cs) by (pose proof (insert_idx_range cs); lia).
  assert (Hnota : tag pg ∉ after_tags).
  { rewrite Hpg, after_tags_spec. vm_compute. intros [?|[?|[?|?]]]; discriminate. }
  assert (Hnotb : tag pg ∉ before_tags).
  { rewrite Hpg, before_tags_spec. vm_compute. intros [?|[?|[?|?]]]; discriminate. }
  split; [|split].
  - rewrite lookup_inserted by done.
    rewrite decide_False by lia. by rewrite decide_True.
  - intros j [c [Hj Hc]]. rewrite lookup_inserted in Hj by done.
    destruct (decide (j < n)); [done|].
    destruct (decide (j = n)); [by injection Hj as <-|].
    assert (Ha : after_at cs (j - 1)) by (by exists c).
    pose proof (insert_idx_after_bound cs (j - 1) Hord Ha). lia.
  - intros j [c [Hj Hc]]. rewrite lookup_inserted in Hj by done.
    destruct (decide (j < n)) as [Hlt|Hge].
    + assert (Hb : before_at cs j) by (by exists c).
      pose proof (insert_idx_before_bound cs j Hb). lia.
    + destruct (decide (j = n)); [by injection Hj as <-|]. lia.
Qed.

(** X1, an instance: page size, margins, old fragment, columns. *)
Lemma inserted_fragment_in_schema_position_witness :
  children (_insert_pgBorders_schema_order
    (elem (w "sectPr")
       [elem (w "pgSz") []; elem (w "pgMar") []; elem pgBorders [];
        elem (w "cols") []])
    (elem pgBorders [elem (w "top") []])) !! 2
  = Some (elem pgBorders [elem (w "top") []]).
Proof.
  destruct (inserted_fragment_in_schema_position
    (elem (w "sectPr")
       [elem (w "pgSz") []; elem (w "pgMar") []; elem pgBorders [];
        elem (w "cols") []])
    (elem pgBorders [elem (w "top") []])) as [Hat _].
  - reflexivity.
  - intros i j [c [Hi Hc]] [c' [Hj Hc']].
    apply after_tags_spec in Hc. apply before_tags_spec in Hc'.
    assert (Hcs : children (remove_existing (elem (w "sectPr")
              [elem (w "pgSz") []; elem (w "pgMar") []; elem pgBorders [];
               elem (w "cols") []])) =
            [elem (w "pgSz") []; elem (w "pgMar") []; elem (w "cols") []])
      by (vm_compute; reflexivity).
    rewrite Hcs in Hi, Hj.
    destruct i as [|[|[|i]]]; simpl in Hi; try discriminate Hi;
      injection Hi as <-;
      try (exfalso; destruct Hc as [Hc|[Hc|[Hc|Hc]]]; vm_compute in Hc; discriminate Hc);
      (destruct j as [|[|[|j]]]; simpl in Hj; try discriminate Hj;
       injection Hj as <-;
       try (exfalso; destruct Hc' as [Hc'|[Hc'|[Hc'|Hc']]]; vm_compute in Hc';
            discriminate Hc'); lia).
  - exact Hat.
Defined.

(** X2.  [_insert_pgBorders_schema_order] keeps the element's tag,
    attributes, text and tail; taking the inserted fragment out again
    leaves the original children in their order, less the first old
    fragment: nothing else is added, dropped or moved. *)
Theorem insert_keeps_other_children (sectpr pg : Element) :
  let out := _insert_pgBorders_schema_order sectpr pg in
  let idx := Z.to_nat (insertion_index sectpr) in
  tag out = tag sectpr /\ attrib out = attrib sectpr /\
  text out = text sectpr /\ tail out = tail sectpr /\
  children out !! idx = Some pg /\
  delete idx (children out) = remove_first pgBorders (children sectpr) /\
  length (children out) = S (length (remove_first pgBorders (children sectpr))).
Proof.
  intros out idx. subst out idx.
  destruct (_insert_pgBorders_schema_order_eq sectpr pg) as [n [-> Hn]].
  rewrite <- Hn, Nat2Z.id. cbn [children set_children tag attrib text tail].
  unfold insertion_index in Hn. rewrite remove_existing_children in Hn.
  set (cs := remove_first pgBorders (children sectpr)) in *.
  assert (Hlen : n <= length cs) by (pose proof (insert_idx_range cs); lia).
  repeat split.
  - rewrite lookup_inserted by done.
    rewrite decide_False by lia. by rewrite decide_True.
  - assert (Hn' : length (take n cs) = n) by (rewrite length_take; lia).
    rewrite <- Hn' at 1. by rewrite delete_middle, take_drop.
  - rewrite length_app, length_take. cbn [length]. rewrite length_drop. lia.
Qed.

(** X3.  With a [pgBorders] fragment, a section that had [k >= 1] fragments
    has [k] afterwards and a section that had none has one: only the first
    old fragment is replaced, so more than one fragment is not repaired. *)
Theorem insert_replaces_first_fragment_only (sectpr pg : Element) :
  tag pg = pgBorders ->
  count_tag pgBorders (_insert_pgBorders_schema_order sectpr pg)
  = Nat.max 1 (count_tag pgBorders sectpr).
Proof. intros Hpg. rewrite count_tag_insert by done. lia. Qed.

(** X3, an instance: two old fragments stay two. *)
Lemma insert_replaces_first_fragment_only_witness :
  count_tag pgBorders
    (_insert_pgBorders_schema_order
       (elem (w "sectPr") [elem pgBorders []; elem (w "pgSz") []; elem pgBorders []])
       (elem pgBorders [elem (w "top") []])) = 2.
Proof.
  rewrite (insert_replaces_first_fragment_only
             (elem (w "sectPr")
                [elem pgBorders []; elem (w "pgSz") []; elem pgBorders []])
             (elem pgBorders [elem (w "top") []])) by reflexivity.
  vm_compute. reflexivity.
Defined.
